(** * Stock ledger undo engine

    A shallow embedding of the undo handler of the warehouse stock ledger
    ([src/app/api/stock/history/route.ts], function [POST]) and of the
    eligibility predicate of the history table
    ([src/components/transaction-history-table.tsx], [hasNewerTransactions]).

    The database is modelled as two finite maps: the [transaction] table keyed
    by the primary key [id], and the [stock] table keyed by the compound unique
    key [itemId_locationId].  Exceptions raised by the database client inside
    the handler are modelled explicitly, since the handler converts them to a
    500 response in its [catch] block. *)

From stdpp Require Import gmap strings list fin_maps sorting.
From Stdlib Require Import ZArith Lia.

Local Open Scope string_scope.
Local Open Scope Z_scope.

(** ** Data model *)

Inductive TransactionType := PUTAWAY | REMOVE | MOVE.

Inductive TransactionStatus := COMPLETED | UNDONE.

#[global] Instance TransactionType_eq_dec : EqDecision TransactionType.
Proof. solve_decision. Defined.

#[global] Instance TransactionStatus_eq_dec : EqDecision TransactionStatus.
Proof. solve_decision. Defined.

(** A row of the [transaction] table.  Dates are milliseconds since the epoch;
    the two location columns and the two undo columns are nullable. *)
Record Transaction := mkTransaction {
  id : string;
  type : TransactionType;
  quantity : Z;
  itemId : string;
  fromLocationId : option string;
  toLocationId : option string;
  userId : string;
  createdAt : Z;
  status : TransactionStatus;
  undoneAt : option Z;
  undoneById : option string
}.

#[global] Instance Transaction_eq_dec : EqDecision Transaction.
Proof. solve_decision. Defined.

(** The database: both tables.  A [stock] row is identified by its compound
    key and carries a quantity. *)
Record Db := mkDb {
  transactions : gmap string Transaction;
  stock : gmap (string * string) Z
}.

(** The JSON body of an undo request.  The handler destructures only
    [transactionId]; any other member of the body is ignored. *)
Record UndoRequest := mkUndoRequest {
  transactionId : string;
  requestingUserId : string
}.

(** What [NextResponse.json] is called with. *)
Inductive Response :=
| json_ok (result : Transaction)
| json_error (error : string) (http_status : Z).

Definition NotFound : Response := json_error "Transaction not found" 404.
Definition AlreadyUndone : Response := json_error "Transaction already undone" 400.
Definition NotLatest : Response :=
  json_error "Can only undo the most recent transaction for an item" 400.
Definition InsufficientStock : Response :=
  json_error "Insufficient stock at destination location" 400.
Definition UndoFailed : Response := json_error "Failed to undo transaction" 500.

(** ** Database client *)

Definition transaction_findUnique (db : Db) (tid : string) : option Transaction :=
  transactions db !! tid.

(** [findFirst] with a [where] clause: some row that satisfies it, if any. *)
Definition transaction_findFirst (db : Db) (where_ : Transaction → bool)
  : option Transaction :=
  snd <$> List.find (λ kv, where_ (snd kv)) (map_to_list (transactions db)).

Definition stock_findUnique (db : Db) (item loc : string) : option Z :=
  stock db !! (item, loc).

(** The [where] clause of the recency query (route.ts, lines 148-154). *)
Definition more_recent_where (transaction t : Transaction) : bool :=
  bool_decide (itemId t = itemId transaction)
  && bool_decide (createdAt transaction < createdAt t)
  && bool_decide (status t = COMPLETED).

(** ** Interactive transactions

    The callback handed to [prisma.$transaction] runs against a working copy
    of the database.  A computation of type [Tx A] either yields the updated
    working copy and a value, or throws ([None]). *)

Definition Tx (A : Type) : Type := Db → option (Db * A).

Definition tx_ret {A} (a : A) : Tx A := λ db, Some (db, a).

Definition tx_throw {A} : Tx A := λ _, None.

Definition tx_bind {A B} (c : Tx A) (k : A → Tx B) : Tx B :=
  λ db, match c db with
        | Some (db', a) => k a db'
        | None => None
        end.

Declare Scope tx_scope.
Delimit Scope tx_scope with tx.
Notation "'await' x := c 'in' k" := (tx_bind c (λ x, k))
  (at level 10, x name, c at level 100, k at level 200, only parsing) : tx_scope.

(** A nullable column passed where the client requires a string, as in
    [transaction.toLocationId!]: the assertion is erased at run time and the
    client rejects a null argument by throwing. *)
Definition non_null {A} (o : option A) : Tx A :=
  match o with
  | Some a => tx_ret a
  | None => tx_throw
  end.

(** [tx.stock.update] with [quantity: { decrement }]: throws when the row is
    missing.  Step 3 has found the row to hold at least the quantity taken
    off, and the data model's quantities are positive, so the result stays
    within the column's range and no range test is written here. *)
Definition tx_stock_update (item loc : string) (decrement : Z) : Tx unit :=
  λ db, match stock db !! (item, loc) with
        | Some q =>
            Some (mkDb (transactions db) (<[(item, loc) := q - decrement]> (stock db)), tt)
        | None => None
        end.

(** The [quantity] column of [stock] is a 32-bit integer in the database. *)
Definition Int_min : Z := -2147483648.
Definition Int_max : Z := 2147483647.

Definition in_Int_range (z : Z) : Prop := Int_min ≤ z ≤ Int_max.

#[global] Instance in_Int_range_dec z : Decision (in_Int_range z).
Proof. unfold in_Int_range. apply _. Defined.

(** [tx.stock.upsert] with [create: { quantity }] and
    [update: { quantity: { increment } }].  The database computes the new
    quantity in the column's type: when it falls outside the 32-bit range the
    statement fails ('integer out of range') and the client throws. *)
Definition tx_stock_upsert (item loc : string) (create_quantity increment : Z) : Tx unit :=
  λ db, let q' := match stock db !! (item, loc) with
                  | Some q => q + increment
                  | None => create_quantity
                  end in
        if bool_decide (in_Int_range q')
        then Some (mkDb (transactions db) (<[(item, loc) := q']> (stock db)), tt)
        else None.

Definition mark_undone (t : Transaction) (now : Z) (by_ : string) : Transaction :=
  mkTransaction (id t) (type t) (quantity t) (itemId t) (fromLocationId t)
    (toLocationId t) (userId t) (createdAt t) UNDONE (Some now) (Some by_).

(** [tx.transaction.update] with
    [data: { status: 'UNDONE', undoneAt, undoneById }]: throws when the row is
    missing, returns the updated row. *)
Definition tx_transaction_update (tid : string) (undoneAt_ : Z) (undoneById_ : string)
  : Tx Transaction :=
  λ db, match transactions db !! tid with
        | Some t =>
            let t' := mark_undone t undoneAt_ undoneById_ in
            Some (mkDb (<[tid := t']> (transactions db)) (stock db), t')
        | None => None
        end.

(** [prisma.$transaction(callback)]: the working copy is committed when the
    callback returns and discarded when it throws. *)
Definition prisma_transaction {A} (callback : Tx A) (db : Db) : Db * option A :=
  match callback db with
  | Some (db', a) => (db', Some a)
  | None => (db, None)
  end.

(** ** The undo handler *)

(** Outcome of steps 1-3 of [POST] (route.ts, lines 119-193), which only read
    the database: an early response, an exception, or the fetched row with
    which step 4 goes on. *)
Inductive Validation :=
| Respond (r : Response)
| Thrown
| CanUndo (transaction : Transaction).

Definition validate (db : Db) (req : UndoRequest) : Validation :=
  match transaction_findUnique db (transactionId req) with
  | None => Respond NotFound
  | Some transaction =>
      if bool_decide (status transaction = UNDONE) then Respond AlreadyUndone
      else
        match transaction_findFirst db (more_recent_where transaction) with
        | Some _ => Respond NotLatest
        | None =>
            match type transaction with
            | MOVE | PUTAWAY =>
                match toLocationId transaction with
                | None =>
                    (* a null [locationId] in the unique key: the client throws *)
                    Thrown
                | Some loc =>
                    match stock_findUnique db (itemId transaction) loc with
                    | None =>
                        (* [!destinationStock] holds, and the branch starts by
                           logging [destinationStock.quantity]: a TypeError *)
                        Thrown
                    | Some q =>
                        if bool_decide (q < quantity transaction)
                        then Respond InsufficientStock
                        else CanUndo transaction
                    end
                end
            | REMOVE => CanUndo transaction
            end
        end
  end.

(** The [switch] on the transaction type inside the callback (route.ts,
    lines 270-349): the compensating stock writes. *)
Definition compensate_stock (transaction : Transaction) : Tx unit :=
  match type transaction with
  | PUTAWAY =>
      (await loc := non_null (toLocationId transaction) in
       tx_stock_update (itemId transaction) loc (quantity transaction))%tx
  | REMOVE =>
      (await loc := non_null (fromLocationId transaction) in
       tx_stock_upsert (itemId transaction) loc
         (quantity transaction) (quantity transaction))%tx
  | MOVE =>
      (await to := non_null (toLocationId transaction) in
       await _ := tx_stock_update (itemId transaction) to (quantity transaction) in
       await from := non_null (fromLocationId transaction) in
       tx_stock_upsert (itemId transaction) from
         (quantity transaction) (quantity transaction))%tx
  end.

(** The callback of step 4 (route.ts, lines 268-392).  It closes over the row
    fetched during validation and over the request's [transactionId]; the
    undoing user is taken from the fetched row's [userId]. *)
Definition undo_callback (transaction : Transaction) (tid : string) (now : Z)
  : Tx Transaction :=
  (await _ := compensate_stock transaction in
   tx_transaction_update tid now (userId transaction))%tx.

(** Step 4 with the final response; a throw lands in the [catch] block. *)
Definition commit (db : Db) (transaction : Transaction) (req : UndoRequest) (now : Z)
  : Db * Response :=
  match prisma_transaction (undo_callback transaction (transactionId req) now) db with
  | (db', Some result) => (db', json_ok result)
  | (db', None) => (db', UndoFailed)
  end.

(** What the handler does once steps 1-3 are over, against the database as
    it is by then. *)
Definition after_validation (db : Db) (v : Validation) (req : UndoRequest) (now : Z)
  : Db * Response :=
  match v with
  | Respond r => (db, r)
  | Thrown => (db, UndoFailed)
  | CanUndo transaction => commit db transaction req now
  end.

(** [POST]: the whole handler, run without interference from other requests.
    [now] is the value of [new Date()]. *)
Definition POST (db : Db) (req : UndoRequest) (now : Z) : Db * Response :=
  after_validation db (validate db req) req now.



(** Two requests in flight at once.  Every [await] of the handler is a point
    where another handler may run; in this schedule both handlers finish their
    reads (steps 1-3) before either starts its step 4. *)
Definition POST_overlapping (db : Db) (reqA reqB : UndoRequest) (nowA nowB : Z)
  : Db * Response * Response :=
  let vA := validate db reqA in
  let vB := validate db reqB in
  let '(db1, respA) := after_validation db vA reqA nowA in
  let '(db2, respB) := after_validation db1 vB reqB nowB in
  (db2, respA, respB).

(** The two serial schedules of the same pair of requests. *)
Definition POST_serial (db : Db) (reqA reqB : UndoRequest) (nowA nowB : Z)
  : Db * Response * Response :=
  let '(db1, respA) := POST db reqA nowA in
  let '(db2, respB) := POST db1 reqB nowB in
  (db2, respA, respB).

(** ** The history table *)

(** [hasNewerTransactions] (transaction-history-table.tsx, lines 48-55): the
    table's rows are filtered and the result's length is tested. *)
Definition hasNewerTransactions (transactions_ : list Transaction)
    (currentTransaction : Transaction) : bool :=
  let newerTransactions :=
    List.filter (λ t,
      bool_decide (itemId t = itemId currentTransaction)
      && bool_decide (status t = COMPLETED)
      && bool_decide (createdAt currentTransaction < createdAt t)) transactions_ in
  bool_decide (0 < length newerTransactions)%nat.

(** ** Predicates used in the statements *)

(** Some row of the same item is COMPLETED and strictly newer than [R]. *)
Definition has_newer_completed (db : Db) (R : Transaction) : Prop :=
  ∃ k r, transactions db !! k = Some r ∧ itemId r = itemId R
         ∧ status r = COMPLETED ∧ createdAt R < createdAt r.

(** The destination row exists and holds at least the transaction's quantity
    (lines 169-186); nothing is required of a REMOVE. *)
Definition destination_stock_ok (db : Db) (t : Transaction) : Prop :=
  match type t with
  | REMOVE => True
  | PUTAWAY | MOVE =>
      ∃ loc q, toLocationId t = Some loc
               ∧ stock db !! (itemId t, loc) = Some q ∧ quantity t ≤ q
  end.


(** Invariant I1 of the data model. *)
Definition stock_nonneg (db : Db) : Prop :=
  ∀ k q, stock db !! k = Some q → 0 ≤ q.

(** The core fields of a row. *)
Definition same_core (t r : Transaction) : Prop :=
  id r = id t ∧ type r = type t ∧ quantity r = quantity t ∧ itemId r = itemId t
  ∧ fromLocationId r = fromLocationId t ∧ toLocationId r = toLocationId t
  ∧ userId r = userId t ∧ createdAt r = createdAt t.

(** ** The ledger's forward operation *)

Inductive ApplyResult :=
| Applied (record : Transaction)
| InvalidOperand
| ApplyInsufficientStock.

Definition quantity_at (db : Db) (item loc : string) : Z :=
  default 0 (stock db !! (item, loc)).

(** The quantity the callback's upsert computes for the source row at [src]:
    the current quantity there (zero when there is no row) plus the row's
    quantity; for a MOVE whose destination is [src] as well, the decrement
    has been applied first, so the current quantity again. *)
Definition source_quantity_after (db : Db) (t : Transaction) (src : string) : Z :=
  if bool_decide (type t = MOVE ∧ toLocationId t = Some src)
  then quantity_at db (itemId t) src
  else quantity_at db (itemId t) src + quantity t.


(** Modelled from the spec: the Ledger Engine's [apply], whose code is not
    among the sources.  PUTAWAY increments the destination entry, creating it
    if absent; REMOVE decrements the source entry and fails when the current
    quantity is below the requested one; MOVE does both.  A missing required
    location or a non-positive quantity is an invalid operand.  On success a
    COMPLETED record with [createdAt] the current time is appended.  The fresh
    [id] and the current time are parameters. *)
Definition apply (db : Db) (new_id : string) (ty : TransactionType) (item : string)
    (qty : Z) (from to : option string) (actor : string) (now : Z)
  : Db * ApplyResult :=
  if bool_decide (qty ≤ 0) then (db, InvalidOperand)
  else
    match ty, from, to with
    | PUTAWAY, _, Some dst =>
        let record :=
          mkTransaction new_id PUTAWAY qty item None (Some dst) actor now
            COMPLETED None None in
        (mkDb (<[new_id := record]> (transactions db))
              (<[(item, dst) := quantity_at db item dst + qty]> (stock db)),
         Applied record)
    | REMOVE, Some src, _ =>
        if bool_decide (quantity_at db item src < qty)
        then (db, ApplyInsufficientStock)
        else
          let record :=
            mkTransaction new_id REMOVE qty item (Some src) None actor now
              COMPLETED None None in
          (mkDb (<[new_id := record]> (transactions db))
                (<[(item, src) := quantity_at db item src - qty]> (stock db)),
           Applied record)
    | MOVE, Some src, Some dst =>
        if bool_decide (quantity_at db item src < qty)
        then (db, ApplyInsufficientStock)
        else
          let record :=
            mkTransaction new_id MOVE qty item (Some src) (Some dst) actor now
              COMPLETED None None in
          let db1 :=
            mkDb (transactions db)
                 (<[(item, src) := quantity_at db item src - qty]> (stock db)) in
          (mkDb (<[new_id := record]> (transactions db))
                (<[(item, dst) := quantity_at db1 item dst + qty]> (stock db1)),
           Applied record)
    | _, _, _ => (db, InvalidOperand)
    end.

(** ** Concrete databases *)

(** One put-away of 5 units of item X at L1, by user u1. *)
Definition putaway_row : Transaction :=
  mkTransaction "T1" PUTAWAY 5 "X" None (Some "L1") "u1" 1 COMPLETED None None.

Definition db_putaway : Db :=
  mkDb {[ "T1" := putaway_row ]} {[ ("X", "L1") := 5 ]}.

(** The same put-away where the stock row of (X, L1) has gone. *)
Definition db_putaway_no_stock : Db :=
  mkDb {[ "T1" := putaway_row ]} ∅.

(** Three completed removals of item X, at times 1, 2 and 3. *)
Definition remove_row (tid : string) (at_ : Z) : Transaction :=
  mkTransaction tid REMOVE 1 "X" (Some "L1") None "u1" at_ COMPLETED None None.

Definition db_three_removes : Db :=
  mkDb (<["T1" := remove_row "T1" 1]>
          (<["T3" := remove_row "T3" 2]> {[ "T2" := remove_row "T2" 3 ]}))
       {[ ("X", "L1") := 0 ]}.

(** L1 holds 5 units of X and L2 none; 5 are moved to L2 at time [t_move]
    and one is then removed from L2 at time [t_remove]. *)
Definition db_move_start : Db :=
  mkDb ∅ (<[("X", "L1") := 5]> {[ ("X", "L2") := 0 ]}).

Definition db_after_move (t_move : Z) : Db :=
  (apply db_move_start "M" MOVE "X" 5 (Some "L1") (Some "L2") "u1" t_move).1.

Definition db_after_move_remove (t_move t_remove : Z) : Db :=
  (apply (db_after_move t_move) "R" REMOVE "X" 1 (Some "L2") None "u1" t_remove).1.

(** The two rows that scenario leaves in the transaction table. *)
Definition move_row (t_move : Z) : Transaction :=
  mkTransaction "M" MOVE 5 "X" (Some "L1") (Some "L2") "u1" t_move COMPLETED None None.

Definition removal_row (t_remove : Z) : Transaction :=
  mkTransaction "R" REMOVE 1 "X" (Some "L2") None "u1" t_remove COMPLETED None None.


(** ** Quantities of an item across locations *)

(** The sum of the quantities of the stock rows of [item]. *)
Definition item_total (st : gmap (string * string) Z) (item : string) : Z :=
  map_fold (λ k q acc, if bool_decide (k.1 = item) then q + acc else acc) 0 st.


(** The change of the item-wide total that undoing a row of each type makes. *)
Definition undo_delta (t : Transaction) : Z :=
  match type t with
  | PUTAWAY => - quantity t
  | REMOVE => quantity t
  | MOVE => 0
  end.

(** ** The history query

    [GET] of [src/app/api/stock/history/route.ts] (lines 21-115).  The rows of
    the response are modelled by their scalar columns; the relations pulled in
    by [include] (item, locations, users) are looked up by foreign key and do
    not bear on which rows are returned or on their order. *)

(** The query string, as [URLSearchParams] holds it: name-value pairs in
    order.  [get] yields the first value of a name, or null. *)
Definition searchParams_get (name : string) (searchParams : list (string * string))
  : option string :=
  snd <$> List.find (λ p, bool_decide (fst p = name)) searchParams.

(** [x || undefined] on a string-or-null: null and the empty string are
    falsy. *)
Definition or_undefined (x : option string) : option string :=
  match x with
  | Some s => if bool_decide (s = "") then None else Some s
  | None => None
  end.

Module FilterParams.
Record t := mk {
  startDate : option string;
  endDate : option string;
  type : option string;
  status : option string;
  locationId : option string;
  itemId : option string
}.
End FilterParams.

Definition extract_filters (searchParams : list (string * string)) : FilterParams.t :=
  FilterParams.mk
    (or_undefined (searchParams_get "startDate" searchParams))
    (or_undefined (searchParams_get "endDate" searchParams))
    (or_undefined (searchParams_get "type" searchParams))
    (or_undefined (searchParams_get "status" searchParams))
    (or_undefined (searchParams_get "locationId" searchParams))
    (or_undefined (searchParams_get "itemId" searchParams)).

(** The members of the [AND] array.  A date is what [new Date(string)] gave:
    a time value, or [None] for an Invalid Date.  The enum members arrive as
    the strings of the query, cast without a check. *)
Inductive WhereCondition :=
| createdAt_gte (d : option Z)
| createdAt_lte (d : option Z)
| type_equals (name : string)
| status_equals (name : string)
| location_either (loc : string)
| itemId_equals (item : string).

(** [array.filter(Boolean)] on an array whose falsy members are the skipped
    conditions. *)
Definition filter_Boolean {A} (l : list (option A)) : list A := omap (λ x, x) l.

Definition TransactionType_of_string (s : string) : option TransactionType :=
  if bool_decide (s = "PUTAWAY") then Some PUTAWAY
  else if bool_decide (s = "REMOVE") then Some REMOVE
  else if bool_decide (s = "MOVE") then Some MOVE
  else None.

Definition TransactionStatus_of_string (s : string) : option TransactionStatus :=
  if bool_decide (s = "COMPLETED") then Some COMPLETED
  else if bool_decide (s = "UNDONE") then Some UNDONE
  else None.

Definition TransactionType_to_string (ty : TransactionType) : string :=
  match ty with PUTAWAY => "PUTAWAY" | REMOVE => "REMOVE" | MOVE => "MOVE" end.

Definition TransactionStatus_to_string (st : TransactionStatus) : string :=
  match st with COMPLETED => "COMPLETED" | UNDONE => "UNDONE" end.

(** The dates the database client takes: it passes a date on in the four-digit
    year format, so the time value must lie in the years 0 to 9999, from
    0000-01-01T00:00:00.000Z to 9999-12-31T23:59:59.999Z. *)
Definition Date_min : Z := -62167219200000.
Definition Date_max : Z := 253402300799999.

Definition accepted_date (d : option Z) : option Z :=
  match d with
  | Some d' => if bool_decide (Date_min ≤ d' ≤ Date_max) then Some d' else None
  | None => None
  end.

(** What a condition asks of a row; [None] when the client rejects the
    condition's argument (an Invalid Date, a date outside the years 0 to
    9999, a string that is no member of the enum) and throws. *)
Definition condition_test (c : WhereCondition) : option (Transaction → bool) :=
  match c with
  | createdAt_gte d => (λ d' r, bool_decide (d' ≤ createdAt r)) <$> accepted_date d
  | createdAt_lte d => (λ d' r, bool_decide (createdAt r ≤ d')) <$> accepted_date d
  | type_equals name =>
      (λ ty r, bool_decide (type r = ty)) <$> TransactionType_of_string name
  | status_equals name =>
      (λ st r, bool_decide (status r = st)) <$> TransactionStatus_of_string name
  | location_either loc =>
      Some (λ r, bool_decide (fromLocationId r = Some loc)
                 || bool_decide (toLocationId r = Some loc))
  | itemId_equals item => Some (λ r, bool_decide (itemId r = item))
  end.

Fixpoint where_tests (conditions : list WhereCondition)
  : option (list (Transaction → bool)) :=
  match conditions with
  | [] => Some []
  | c :: rest =>
      match condition_test c, where_tests rest with
      | Some f, Some fs => Some (f :: fs)
      | _, _ => None
      end
  end.

(** [orderBy: { createdAt: 'desc' }]. *)
Definition newest_first (a b : Transaction) : Prop := createdAt b ≤ createdAt a.

#[global] Instance newest_first_dec : RelDecision newest_first.
Proof. intros a b. unfold newest_first. apply _. Defined.

(** [prisma.transaction.findMany] with [where: { AND: conditions }] and the
    ordering above; rows with equal [createdAt] come in the order the table
    yields them. *)
Definition transaction_findMany (db : Db) (conditions : list WhereCondition)
  : option (list Transaction) :=
  match where_tests conditions with
  | Some tests =>
      Some (merge_sort newest_first
              (List.filter (λ r, forallb (λ f, f r) tests)
                 (snd <$> map_to_list (transactions db))))
  | None => None
  end.

Inductive HistoryResponse :=
| history_ok (rows : list Transaction)
| history_error (error : string) (http_status : Z).

Section history_query.

(** [new Date(string)]: the time value, or [None] for an Invalid Date. *)
Variable Date_parse : string → option Z.

Definition build_where (filters : FilterParams.t) : list WhereCondition :=
  filter_Boolean
    [ (λ s, createdAt_gte (Date_parse s)) <$> FilterParams.startDate filters;
      (λ s, createdAt_lte (Date_parse s)) <$> FilterParams.endDate filters;
      type_equals <$> FilterParams.type filters;
      status_equals <$> FilterParams.status filters;
      location_either <$> FilterParams.locationId filters;
      itemId_equals <$> FilterParams.itemId filters ].

Definition GET (db : Db) (searchParams : list (string * string)) : HistoryResponse :=
  let filters := extract_filters searchParams in
  let where_ := build_where filters in
  match transaction_findMany db where_ with
  | Some transactions_ => history_ok transactions_
  | None => history_error "Failed to fetch transaction history" 500
  end.

End history_query.

(** ** The history page

    [src/app/(main)/stock/history/page.tsx] and the Undo button of the table
    (transaction-history-table.tsx, lines 158-171). *)

Record FilterState := mkFilterState {
  filter_type : option TransactionType;
  filter_status : option TransactionStatus
}.

(** The query string [fetchTransactions] builds (page.tsx, lines 31-33). *)
Definition fetch_query (filters : FilterState) : list (string * string) :=
  match filter_type filters with
  | Some ty => [("type", TransactionType_to_string ty)]
  | None => []
  end ++
  match filter_status filters with
  | Some st => [("status", TransactionStatus_to_string st)]
  | None => []
  end.

Inductive UndoButton := no_button | button_disabled | button_enabled.

(** The last cell of a table row: a button for a COMPLETED row only, disabled
    while loading or when the list holds a newer COMPLETED row of the item. *)
Definition undo_button (transactions_ : list Transaction) (isLoading : bool)
    (transaction : Transaction) : UndoButton :=
  if bool_decide (status transaction = COMPLETED) then
    if isLoading || hasNewerTransactions transactions_ transaction
    then button_disabled
    else button_enabled
  else no_button.

(** The primary key: every row sits under its own [id]. *)
Definition ids_are_keys (db : Db) : Prop :=
  ∀ k r, transactions db !! k = Some r → id r = k.

(** A row passes the page's two filters. *)
Definition passes_page_filters (filters : FilterState) (r : Transaction) : Prop :=
  (∀ ty, filter_type filters = Some ty → type r = ty)
  ∧ (∀ st, filter_status filters = Some st → status r = st).

(** A query parameter as the handler reads it. *)
Definition query_param (name : string) (searchParams : list (string * string))
  : option string :=
  or_undefined (searchParams_get name searchParams).

(** What a condition of the [where] clause says of a row. *)
Definition condition_holds (c : WhereCondition) (r : Transaction) : Prop :=
  match c with
  | createdAt_gte d => ∃ d', d = Some d' ∧ d' ≤ createdAt r
  | createdAt_lte d => ∃ d', d = Some d' ∧ createdAt r ≤ d'
  | type_equals name => TransactionType_to_string (type r) = name
  | status_equals name => TransactionStatus_to_string (status r) = name
  | location_either loc => fromLocationId r = Some loc ∨ toLocationId r = Some loc
  | itemId_equals item => itemId r = item
  end.

(** ** The stock summary page

    The grouping of [StockSummaryPage] (src/unnamed/part_000, lines 23-31):
    the stock rows, fetched with their item and location, are collected per
    location label in a plain object. *)

Record StockRow := mkStockRow {
  stock_itemId : string;
  stock_locationId : string;
  stock_quantity : Z;
  item_sku : string;
  item_company_code : string;
  location_label : string
}.

(** The property names every plain object inherits from [Object.prototype].
    Reading one of them from [{}] yields a function (the prototype itself for
    [__proto__]): truthy, and without a [push] method. *)
Definition Object_prototype_names : list string :=
  [ "constructor"; "__defineGetter__"; "__defineSetter__"; "hasOwnProperty";
    "__lookupGetter__"; "__lookupSetter__"; "isPrototypeOf";
    "propertyIsEnumerable"; "toString"; "valueOf"; "__proto__";
    "toLocaleString" ].

(** One call of the reducer on the accumulator's own properties; [None] is
    the TypeError of calling [push] on an inherited member. *)
Definition group_by_location_step (acc : gmap string (list StockRow)) (curr : StockRow)
  : option (gmap string (list StockRow)) :=
  let locationLabel := location_label curr in
  match acc !! locationLabel with
  | Some rows => Some (<[locationLabel := (rows ++ [curr])%list]> acc)
  | None =>
      if bool_decide (locationLabel ∈ Object_prototype_names) then None
      else Some (<[locationLabel := [curr]]> acc)
  end.

(** [stock.reduce(reducer, acc)]. *)
Fixpoint reduce_by_location (stock_ : list StockRow) (acc : gmap string (list StockRow))
  : option (gmap string (list StockRow)) :=
  match stock_ with
  | [] => Some acc
  | curr :: rest =>
      match group_by_location_step acc curr with
      | Some acc' => reduce_by_location rest acc'
      | None => None
      end
  end.

Definition stockByLocation (stock_ : list StockRow)
  : option (gmap string (list StockRow)) :=
  reduce_by_location stock_ ∅.

(** The rows of [stock_] at the location labelled [label], in order. *)
Definition rows_at (label : string) (stock_ : list StockRow) : list StockRow :=
  List.filter (λ r, bool_decide (location_label r = label)) stock_.

(** ** The SKU table: CSV export and import

    [handleDownload] and the parsing part of [handleFileUpload] of the SKU
    table component (src/components/transaction-history-table.tsx, lines
    334-387).  Here the content of strings matters, so a string is the list of
    its UTF-16 code units. *)

Abbreviation JsString := (list N).

(** A literal of the source, all ASCII. *)
Definition js (s : string) : JsString :=
  (λ a, Ascii.N_of_ascii a) <$> String.list_ascii_of_string s.

Definition LF : N := 10.
Definition COMMA : N := 44.

(** The code units [trim] strips: WhiteSpace and LineTerminator. *)
Definition is_space (c : N) : bool :=
  ((9 <=? c) && (c <=? 13) || (c =? 32) || (c =? 160) || (c =? 5760)
   || (8192 <=? c) && (c <=? 8202) || (c =? 8232) || (c =? 8233)
   || (c =? 8239) || (c =? 8287) || (c =? 12288) || (c =? 65279))%N.

Fixpoint trimStart (s : JsString) : JsString :=
  match s with
  | c :: rest => if is_space c then trimStart rest else s
  | [] => []
  end.

Definition trim (s : JsString) : JsString :=
  rev (trimStart (rev (trimStart s))).

(** [s.split(sep)] for a separator of one code unit. *)
Fixpoint split_on (sep : N) (s : JsString) : list JsString :=
  match s with
  | [] => [[]]
  | c :: rest =>
      if (c =? sep)%N then [] :: split_on sep rest
      else match split_on sep rest with
           | field :: fields => (c :: field) :: fields
           | [] => [[c]]
           end
  end.

(** [parts.join(sep)]. *)
Fixpoint join (sep : JsString) (parts : list JsString) : JsString :=
  match parts with
  | [] => []
  | [part] => part
  | part :: rest => (part ++ sep ++ join sep rest)%list
  end.

Module Company.
Record t := mk { id : JsString; code : JsString }.
End Company.

Module Item.
Record t := mk {
  id : JsString;
  sku : JsString;
  name : JsString;
  barcode : JsString;
  company : Company.t
}.
End Item.

Definition expectedHeaders : list JsString :=
  [js "SKU"; js "Name"; js "Barcode"; js "Company"].

Definition item_fields (item : Item.t) : list JsString :=
  [Item.sku item; Item.name item; Item.barcode item; Company.code (Item.company item)].

(** The text [handleDownload] puts in the file: no quoting, no escaping. *)
Definition handleDownload (items : list Item.t) : JsString :=
  join [LF] (join [COMMA] <$> (expectedHeaders :: (item_fields <$> items))).

(** [headers.every((header, i) => header === expectedHeaders[i])]: past the
    end of [expectedHeaders] the comparison is with [undefined]. *)
Definition headers_match (headers : list JsString) : bool :=
  forallb (λ ih, bool_decide (expectedHeaders !! (fst ih) = Some (snd ih)))
          (imap (λ i header, (i, header)) headers).

(** What the import loop does with one data row, up to the request it sends:
    the destructured fields may be [undefined]. *)
Inductive ImportStep :=
| post_item (sku name barcode : option JsString) (companyId : JsString)
| company_not_found (sku companyCode : option JsString).

Definition import_row (companies : list Company.t) (row : list JsString) : ImportStep :=
  let fields := trim <$> row in
  let sku := fields !! 0%nat in
  let name := fields !! 1%nat in
  let barcode := fields !! 2%nat in
  let companyCode := fields !! 3%nat in
  match List.find (λ c, bool_decide (Some (Company.code c) = companyCode)) companies with
  | Some company => post_item sku name barcode (Company.id company)
  | None => company_not_found sku companyCode
  end.

Inductive ImportOutcome :=
| headers_rejected
| import_steps (steps : list ImportStep).

(** The parsing of [handleFileUpload] (lines 359-387): the rows, the header
    check, the rows kept, and what is done with each. *)
Definition handleFileUpload (csvText : JsString) (companies : list Company.t)
  : ImportOutcome :=
  let rows := (λ row, split_on COMMA (trim row)) <$> split_on LF csvText in
  let headers := trim <$> default [] (rows !! 0%nat) in
  if negb (headers_match headers) then headers_rejected
  else
    let data :=
      List.filter (λ row, bool_decide (length row = length headers)) (drop 1 rows) in
    import_steps (import_row companies <$> data).

(** No field of the item holds a comma. *)
Definition comma_free (item : Item.t) : bool :=
  forallb (λ f, bool_decide (COMMA ∉ f)) (item_fields item).

(** What the import does with an item's own four fields. *)
Definition item_step (companies : list Company.t) (item : Item.t) : ImportStep :=
  match List.find (λ c, bool_decide (Company.code c = Company.code (Item.company item)))
          companies with
  | Some company =>
      post_item (Some (Item.sku item)) (Some (Item.name item))
        (Some (Item.barcode item)) (Company.id company)
  | None =>
      company_not_found (Some (Item.sku item))
        (Some (Company.code (Item.company item)))
  end.

(** The header fields as the import reads them off the first line. *)
Definition csv_headers (csvText : JsString) : list JsString :=
  trim <$> split_on COMMA (trim (default [] (split_on LF csvText !! 0%nat))).

(** The put-away of item X together with a removal of 2 units of another
    item, Y, from L1. *)
Definition other_item_row : Transaction :=
  mkTransaction "U1" REMOVE 2 "Y" (Some "L1") None "u2" 2 COMPLETED None None.

Definition db_two_items : Db :=
  mkDb (<["T1" := putaway_row]> {[ "U1" := other_item_row ]})
       {[ ("X", "L1") := 5 ]}.

(** A single removal of 2147483647 units from a location that holds 1. *)
Definition big_remove_row : Transaction :=
  mkTransaction "T1" REMOVE 2147483647 "X" (Some "L1") None "u1" 1 COMPLETED None None.

Definition db_big_remove : Db :=
  mkDb {[ "T1" := big_remove_row ]} {[ ("X", "L1") := 1 ]}.


(** A removal row whose quantity is negative, at a location that holds
    nothing. *)
Definition negative_remove_row : Transaction :=
  mkTransaction "T1" REMOVE (-3) "X" (Some "L1") None "u1" 1 COMPLETED None None.

Definition db_negative_remove : Db :=
  mkDb {[ "T1" := negative_remove_row ]} {[ ("X", "L1") := 0 ]}.
(** ** Reading the tables *)

(** Case analysis on a lookup [Hk] in a table written out row by row: one goal
    per row, with the key and the row substituted. *)
Ltac each_row Hk :=
  first
    [ apply lookup_insert_Some in Hk as [[<- <-]|[_ Hk]]; [|each_row Hk]
    | apply lookup_singleton_Some in Hk as [<- <-]
    | by rewrite lookup_empty in Hk ].

Lemma more_recent_where_true R r :
  more_recent_where R r = true ↔
  itemId r = itemId R ∧ status r = COMPLETED ∧ createdAt R < createdAt r.
Proof.
  unfold more_recent_where.
  rewrite !andb_true_iff, !bool_decide_eq_true. tauto.
Qed.

Lemma findFirst_Some db w t :
  transaction_findFirst db w = Some t →
  ∃ k, transactions db !! k = Some t ∧ w t = true.
Proof.
  unfold transaction_findFirst. intros H.
  destruct (List.find _ _) as [[k t']|] eqn:E; simplify_eq/=.
  apply find_some in E as [Hin Hw]. exists k. split; [|done].
  apply elem_of_map_to_list. by apply list_elem_of_In.
Qed.

Lemma findFirst_None db w :
  transaction_findFirst db w = None ↔
  ∀ k t, transactions db !! k = Some t → w t = false.
Proof.
  unfold transaction_findFirst. split.
  - intros H k t Hk.
    destruct (List.find _ _) as [[k' t']|] eqn:E; simplify_eq/=.
    apply (find_none _ _ E (k, t)).
    apply list_elem_of_In. by apply elem_of_map_to_list.
  - intros H. destruct (List.find _ _) as [[k t]|] eqn:E; [|done].
    apply find_some in E as [Hin Hw]. simpl in Hw.
    apply list_elem_of_In, elem_of_map_to_list in Hin.
    rewrite (H _ _ Hin) in Hw. discriminate.
Qed.

Lemma findFirst_more_recent db R :
  is_Some (transaction_findFirst db (more_recent_where R)) ↔ has_newer_completed db R.
Proof.
  split.
  - intros [t Ht]. apply findFirst_Some in Ht as (k & Hk & Hw).
    apply more_recent_where_true in Hw. by exists k, t.
  - intros (k & r & Hk & Hw).
    destruct (transaction_findFirst db (more_recent_where R)) eqn:E; [eauto|].
    rewrite findFirst_None in E. specialize (E _ _ Hk).
    apply more_recent_where_true in Hw. congruence.
Qed.

Lemma findFirst_more_recent_None db R :
  transaction_findFirst db (more_recent_where R) = None ↔ ¬ has_newer_completed db R.
Proof.
  rewrite <- findFirst_more_recent, <- eq_None_not_Some. done.
Qed.

(** ** The two phases of the handler *)

Lemma status_not_UNDONE (t : Transaction) : status t ≠ UNDONE ↔ status t = COMPLETED.
Proof. destruct (status t); split; congruence. Qed.

Lemma validate_CanUndo db req t :
  validate db req = CanUndo t ↔
  transactions db !! transactionId req = Some t ∧ status t = COMPLETED
  ∧ ¬ has_newer_completed db t ∧ destination_stock_ok db t.
Proof.
  unfold validate, transaction_findUnique, stock_findUnique, destination_stock_ok.
  split.
  - destruct (transactions db !! transactionId req) as [t0|] eqn:Hl; [|done].
    case_bool_decide as Hst; [done|]. apply status_not_UNDONE in Hst.
    destruct (transaction_findFirst db _) eqn:Hf; [done|].
    apply findFirst_more_recent_None in Hf.
    destruct (type t0) eqn:Hty.
    + destruct (toLocationId t0) as [loc|] eqn:Hto; [|done].
      destruct (stock db !! _) as [q|] eqn:Hq; [|done].
      case_bool_decide; [done|]. intros [= <-]. rewrite Hty.
      split_and!; [done..|]. exists loc, q. split_and!; [done..|lia].
    + intros [= <-]. by rewrite Hty.
    + destruct (toLocationId t0) as [loc|] eqn:Hto; [|done].
      destruct (stock db !! _) as [q|] eqn:Hq; [|done].
      case_bool_decide; [done|]. intros [= <-]. rewrite Hty.
      split_and!; [done..|]. exists loc, q. split_and!; [done..|lia].
  - intros (Hl & Hst & Hnew & Hok). rewrite Hl.
    rewrite bool_decide_eq_false_2 by (by apply status_not_UNDONE).
    apply findFirst_more_recent_None in Hnew. rewrite Hnew.
    destruct (type t); [|done|].
    + destruct Hok as (loc & q & -> & -> & Hq).
      by rewrite bool_decide_eq_false_2 by lia.
    + destruct Hok as (loc & q & -> & -> & Hq).
      by rewrite bool_decide_eq_false_2 by lia.
Qed.

Lemma validate_NotLatest db req :
  validate db req = Respond NotLatest ↔
  ∃ t, transactions db !! transactionId req = Some t ∧ status t = COMPLETED
       ∧ has_newer_completed db t.
Proof.
  unfold validate, transaction_findUnique, stock_findUnique. split.
  - destruct (transactions db !! transactionId req) as [t0|] eqn:Hl; [|done].
    case_bool_decide as Hst; [done|]. apply status_not_UNDONE in Hst.
    destruct (transaction_findFirst db _) eqn:Hf.
    + intros _. exists t0. split_and!; [done..|].
      apply findFirst_more_recent. by rewrite Hf.
    + destruct (type t0); [|done|];
        (destruct (toLocationId t0); [|done]);
        (destruct (stock db !! _); [|done]); by case_bool_decide.
  - intros (t & Hl & Hst & Hnew). rewrite Hl.
    rewrite bool_decide_eq_false_2 by (by apply status_not_UNDONE).
    apply findFirst_more_recent in Hnew as [? ->]. done.
Qed.

(** What the stock writes of each branch amount to. *)
Lemma compensate_stock_PUTAWAY t db :
  type t = PUTAWAY →
  compensate_stock t db =
  match toLocationId t with
  | Some loc =>
      match stock db !! (itemId t, loc) with
      | Some q =>
          Some (mkDb (transactions db)
                     (<[(itemId t, loc) := q - quantity t]> (stock db)), tt)
      | None => None
      end
  | None => None
  end.
Proof.
  intros Hty. unfold compensate_stock. rewrite Hty.
  unfold tx_bind, non_null, tx_ret, tx_throw, tx_stock_update.
  by destruct (toLocationId t).
Qed.

Lemma source_quantity_after_REMOVE db t src :
  type t = REMOVE →
  source_quantity_after db t src
  = match stock db !! (itemId t, src) with
    | Some q => q + quantity t
    | None => quantity t
    end.
Proof.
  intros Hty. unfold source_quantity_after, quantity_at.
  rewrite bool_decide_eq_false_2 by (intros [? _]; congruence).
  by destruct (stock db !! _).
Qed.

Lemma source_quantity_after_MOVE db t src dst q :
  type t = MOVE → toLocationId t = Some dst →
  stock db !! (itemId t, dst) = Some q →
  source_quantity_after db t src
  = match <[(itemId t, dst) := q - quantity t]> (stock db) !! (itemId t, src) with
    | Some q' => q' + quantity t
    | None => quantity t
    end.
Proof.
  intros Hty Hto Hq. unfold source_quantity_after, quantity_at.
  destruct (decide (src = dst)) as [->|Hne].
  - rewrite bool_decide_eq_true_2 by done.
    rewrite lookup_insert_eq, Hq. simpl. lia.
  - rewrite bool_decide_eq_false_2 by (intros [_ ?]; congruence).
    rewrite lookup_insert_ne by congruence.
    destruct (stock db !! (itemId t, src)); simpl; lia.
Qed.

Lemma compensate_stock_REMOVE t db :
  type t = REMOVE →
  compensate_stock t db =
  match fromLocationId t with
  | Some loc =>
      if bool_decide (in_Int_range (source_quantity_after db t loc))
      then Some (mkDb (transactions db)
                      (<[(itemId t, loc) := source_quantity_after db t loc]>
                         (stock db)), tt)
      else None
  | None => None
  end.
Proof.
  intros Hty. unfold compensate_stock. rewrite Hty.
  unfold tx_bind, non_null, tx_ret, tx_throw, tx_stock_upsert.
  destruct (fromLocationId t) as [loc|]; [|done].
  by rewrite (source_quantity_after_REMOVE _ _ _ Hty).
Qed.

Lemma compensate_stock_MOVE t db :
  type t = MOVE →
  compensate_stock t db =
  match toLocationId t, fromLocationId t with
  | Some to, Some from =>
      match stock db !! (itemId t, to) with
      | Some q =>
          if bool_decide (in_Int_range (source_quantity_after db t from))
          then Some (mkDb (transactions db)
                          (<[(itemId t, from) := source_quantity_after db t from]>
                             (<[(itemId t, to) := q - quantity t]> (stock db))), tt)
          else None
      | None => None
      end
  | _, _ => None
  end.
Proof.
  intros Hty. unfold compensate_stock. rewrite Hty.
  unfold tx_bind, non_null, tx_ret, tx_throw, tx_stock_update, tx_stock_upsert.
  destruct (toLocationId t) as [to|] eqn:Hto; [|done].
  destruct (stock db !! (itemId t, to)) as [q|] eqn:Hq; simpl.
  - destruct (fromLocationId t) as [from|]; [|done].
    by rewrite (source_quantity_after_MOVE _ _ from _ _ Hty Hto Hq).
  - by destruct (fromLocationId t).
Qed.

(** The stock writes leave the transaction table alone. *)
Lemma compensate_stock_transactions t db dbs u :
  compensate_stock t db = Some (dbs, u) → transactions dbs = transactions db.
Proof.
  destruct (type t) eqn:Hty.
  - rewrite compensate_stock_PUTAWAY by done.
    destruct (toLocationId t); [|done].
    destruct (stock db !! _); [|done]. by intros [= <- _].
  - rewrite compensate_stock_REMOVE by done.
    destruct (fromLocationId t); [|done].
    case_bool_decide; [|done]. by intros [= <- _].
  - rewrite compensate_stock_MOVE by done.
    destruct (toLocationId t), (fromLocationId t); try done.
    destruct (stock db !! _); [|done].
    case_bool_decide; [|done]. by intros [= <- _].
Qed.

(** Step 4 is all or nothing, whatever database it runs against. *)
Lemma commit_cases db t req now :
  (commit db t req now = (db, UndoFailed)
   ∧ undo_callback t (transactionId req) now db = None)
  ∨ (∃ dbs t0,
       compensate_stock t db = Some (dbs, tt)
       ∧ transactions db !! transactionId req = Some t0
       ∧ commit db t req now =
           (mkDb (<[transactionId req := mark_undone t0 now (userId t)]> (transactions db))
                 (stock dbs),
            json_ok (mark_undone t0 now (userId t)))).
Proof.
  unfold commit, prisma_transaction, undo_callback, tx_bind.
  destruct (compensate_stock t db) as [[dbs []]|] eqn:Hc; [|by left].
  unfold tx_transaction_update.
  rewrite (compensate_stock_transactions _ _ _ _ Hc).
  destruct (transactions db !! transactionId req) as [t0|] eqn:Hl; [|by left].
  right. by exists dbs, t0.
Qed.

Lemma POST_unfold db req now :
  POST db req now =
  match validate db req with
  | Respond r => (db, r)
  | Thrown => (db, UndoFailed)
  | CanUndo t => commit db t req now
  end.
Proof. reflexivity. Qed.

(** ** Outcomes of a whole request *)

Lemma POST_ok db req now db' r :
  POST db req now = (db', json_ok r) ↔
  ∃ t dbs, validate db req = CanUndo t
           ∧ compensate_stock t db = Some (dbs, tt)
           ∧ r = mark_undone t now (userId t)
           ∧ db' = mkDb (<[transactionId req := r]> (transactions db)) (stock dbs).
Proof.
  rewrite POST_unfold. split.
  - destruct (validate db req) as [resp| |t] eqn:Hv.
    + intros [= <- ->]. unfold validate in Hv.
      repeat (match type of Hv with
              | context [match ?x with _ => _ end] => destruct x
              end; try done).
    + done.
    + pose proof (proj1 (validate_CanUndo _ _ _) Hv) as (Hl & _).
      destruct (commit_cases db t req now) as [[-> _]|(dbs & t0 & Hc & Hl0 & ->)];
        [done|].
      intros [= <- <-]. simplify_eq. by exists t, dbs.
  - intros (t & dbs & Hv & Hc & -> & ->). rewrite Hv.
    pose proof (proj1 (validate_CanUndo _ _ _) Hv) as (Hl & _).
    destruct (commit_cases db t req now) as [[_ Hn]|(dbs' & t0 & Hc' & Hl0 & ->)].
    + unfold undo_callback, tx_bind, tx_transaction_update in Hn.
      rewrite Hc, (compensate_stock_transactions _ _ _ _ Hc), Hl in Hn. done.
    + by simplify_eq.
Qed.

Lemma POST_error db req now db' e c :
  POST db req now = (db', json_error e c) → db' = db.
Proof.
  rewrite POST_unfold.
  destruct (validate db req) as [resp| |t]; [by intros [= <- _]..|].
  destruct (commit_cases db t req now) as [[-> _]|(dbs & t0 & _ & _ & ->)];
    by intros [= <-].
Qed.

Lemma POST_AlreadyUndone db req now t :
  transactions db !! transactionId req = Some t → status t = UNDONE →
  POST db req now = (db, AlreadyUndone).
Proof.
  intros Hl Hst. rewrite POST_unfold. unfold validate, transaction_findUnique.
  rewrite Hl. by rewrite bool_decide_eq_true_2.
Qed.

Lemma POST_NotLatest db req now :
  (POST db req now).2 = NotLatest ↔ validate db req = Respond NotLatest.
Proof.
  rewrite POST_unfold.
  destruct (validate db req) as [resp| |t] eqn:Hv; simpl.
  - split; congruence.
  - split; discriminate.
  - destruct (commit_cases db t req now) as [[-> _]|(dbs & t0 & _ & _ & ->)];
      split; discriminate.
Qed.




(** ** Recency *)


Lemma POST_NotLatest_unchanged db req now R :
  transactions db !! transactionId req = Some R → status R = COMPLETED →
  has_newer_completed db R → POST db req now = (db, NotLatest).
Proof.
  intros Hl Hst Hnew. rewrite POST_unfold.
  assert (validate db req = Respond NotLatest) as ->; [|done].
  apply validate_NotLatest. eauto.
Qed.






(** ** Stock sufficiency *)

Lemma POST_InsufficientStock db req now t loc q :
  transactions db !! transactionId req = Some t → status t = COMPLETED →
  type t = PUTAWAY ∨ type t = MOVE →
  ¬ has_newer_completed db t →
  toLocationId t = Some loc → stock db !! (itemId t, loc) = Some q →
  q < quantity t →
  POST db req now = (db, InsufficientStock).
Proof.
  intros Hl Hst Hty Hnew Hto Hq Hlt. rewrite POST_unfold.
  unfold validate, transaction_findUnique, stock_findUnique. rewrite Hl.
  rewrite bool_decide_eq_false_2 by (by apply status_not_UNDONE).
  apply findFirst_more_recent_None in Hnew. rewrite Hnew.
  destruct Hty as [-> | ->]; rewrite Hto, Hq;
    by rewrite bool_decide_eq_true_2 by lia.
Qed.

(** When the destination row is missing altogether, the handler throws while
    logging and answers 500. *)
Lemma POST_missing_destination_row db req now t loc :
  transactions db !! transactionId req = Some t → status t = COMPLETED →
  type t = PUTAWAY ∨ type t = MOVE →
  ¬ has_newer_completed db t →
  toLocationId t = Some loc → stock db !! (itemId t, loc) = None →
  POST db req now = (db, UndoFailed).
Proof.
  intros Hl Hst Hty Hnew Hto Hq. rewrite POST_unfold.
  unfold validate, transaction_findUnique, stock_findUnique. rewrite Hl.
  rewrite bool_decide_eq_false_2 by (by apply status_not_UNDONE).
  apply findFirst_more_recent_None in Hnew. rewrite Hnew.
  by destruct Hty as [-> | ->]; rewrite Hto, Hq.
Qed.

Example POST_putaway_no_stock :
  POST db_putaway_no_stock (mkUndoRequest "T1" "u1") 7
  = (db_putaway_no_stock, json_error "Failed to undo transaction" 500).
Proof. vm_compute. reflexivity. Qed.

Lemma db_after_move_remove_eq t_move t_remove :
  db_after_move_remove t_move t_remove =
  mkDb (<["R" := removal_row t_remove]> (<["M" := move_row t_move]> ∅))
       (<[("X", "L2") := 4]>
          (<[("X", "L2") := 5]>
             (<[("X", "L1") := 0]> (<[("X", "L1") := 5]> {[ ("X", "L2") := 0 ]})))).
Proof. reflexivity. Qed.

Lemma move_remove_scenario t_move t_remove now :
  let db := db_after_move_remove t_move t_remove in
  POST db (mkUndoRequest "M" "u1") now =
  (db, if bool_decide (t_move < t_remove) then NotLatest else InsufficientStock).
Proof.
  intros db. subst db. rewrite db_after_move_remove_eq.
  set (db := mkDb _ _).
  assert (transactions db !! "M" = Some (move_row t_move)) as HM by reflexivity.
  assert (transactions db !! "R" = Some (removal_row t_remove)) as HR by reflexivity.
  case_bool_decide as Hlt.
  - apply (POST_NotLatest_unchanged _ _ _ (move_row t_move)); [done..|].
    by exists "R", (removal_row t_remove).
  - apply (POST_InsufficientStock _ _ _ (move_row t_move) "L2" 4);
      [done|done|by right| |done|reflexivity|simpl; lia].
    intros (k & r & Hk & _ & _ & Hnew). unfold db in Hk; simpl in Hk.
    each_row Hk; simpl in Hnew; lia.
Qed.

(** C2 (as amended).  For the undo of a COMPLETED PUTAWAY or MOVE row that
    passes the recency check: if the stock row of (itemId, toLocationId)
    exists and holds less than the row's quantity, the response is
    InsufficientStock and nothing is written.  After a MOVE of 5 into L2 and a
    REMOVE of 1 from L2, the undo of the MOVE is rejected as NotLatest when
    the REMOVE's row is strictly newer, and as InsufficientStock (L2 holds
    4 < 5) when it is not. *)
Theorem undo_insufficient_stock :
  (∀ db req now t loc q,
     transactions db !! transactionId req = Some t → status t = COMPLETED →
     type t = PUTAWAY ∨ type t = MOVE →
     ¬ has_newer_completed db t →
     toLocationId t = Some loc → stock db !! (itemId t, loc) = Some q →
     q < quantity t →
     POST db req now = (db, InsufficientStock))
  ∧ (∀ t_move t_remove now,
       stock (db_after_move_remove t_move t_remove) !! ("X", "L2") = Some 4
       ∧ POST (db_after_move_remove t_move t_remove) (mkUndoRequest "M" "u1") now =
         (db_after_move_remove t_move t_remove,
          if bool_decide (t_move < t_remove) then NotLatest else InsufficientStock)).
Proof.
  split.
  - apply POST_InsufficientStock.
  - intros t_move t_remove now. split; [reflexivity|].
    apply move_remove_scenario.
Qed.

Lemma move_remove_same_time_no_newer :
  ¬ has_newer_completed (db_after_move_remove 1 1) (move_row 1).
Proof.
  intros (k & r & Hk & _ & _ & Hnew). rewrite db_after_move_remove_eq in Hk.
  simpl in Hk.
  each_row Hk; simpl in Hnew; lia.
Qed.

Lemma undo_insufficient_stock_witness :
  let db := db_after_move_remove 1 1 in
  transactions db !! "M" = Some (move_row 1)
  ∧ stock db !! ("X", "L2") = Some 4
  ∧ 4 < quantity (move_row 1)
  ∧ POST db (mkUndoRequest "M" "u1") 3 = (db, InsufficientStock).
Proof.
  intros db. split; [reflexivity|]. split; [reflexivity|]. split; [simpl; lia|].
  apply (proj1 undo_insufficient_stock db (mkUndoRequest "M" "u1") 3
           (move_row 1) "L2" 4).
  - reflexivity.
  - reflexivity.
  - right; reflexivity.
  - exact move_remove_same_time_no_newer.
  - reflexivity.
  - reflexivity.
  - simpl; lia.
Defined.

(** Against C2 as stated: 5 units are moved into L2 (time 1), one is removed
    from L2 (time 2), and the undo of the MOVE is answered with NotLatest, not
    with InsufficientStock. *)
Lemma undo_move_after_remove_not_latest :
  (apply db_move_start "M" MOVE "X" 5 (Some "L1") (Some "L2") "u1" 1).2
    = Applied (move_row 1)
  ∧ (apply (db_after_move 1) "R" REMOVE "X" 1 (Some "L2") None "u1" 2).2
    = Applied (removal_row 2)
  ∧ stock (db_after_move_remove 1 2) !! ("X", "L2") = Some 4
  ∧ (POST (db_after_move_remove 1 2) (mkUndoRequest "M" "u1") 3).2 = NotLatest
  ∧ (POST (db_after_move_remove 1 2) (mkUndoRequest "M" "u1") 3).2 ≠ InsufficientStock.
Proof.
  split_and!; [reflexivity|reflexivity|reflexivity|vm_compute; reflexivity|].
  vm_compute. discriminate.
Qed.

(** ** Atomicity *)

Lemma validate_Respond_not_ok db req r : validate db req ≠ Respond (json_ok r).
Proof.
  unfold validate.
  repeat (match goal with
          | |- context [match ?x with _ => _ end] => destruct x
          end; try done).
Qed.

Lemma validation_error_not_thrown :
  UndoFailed ∉ [NotFound; AlreadyUndone; NotLatest; InsufficientStock].
Proof. rewrite !elem_of_cons, elem_of_nil. intros [|[|[|[|]]]]; done. Qed.

Lemma validation_error_not_ok r :
  json_ok r ∉ [NotFound; AlreadyUndone; NotLatest; InsufficientStock].
Proof. rewrite !elem_of_cons, elem_of_nil. intros [|[|[|[|]]]]; done. Qed.

(** C3.  Whatever the response, an error leaves both tables as they were; the
    four validation errors come out of the read-only steps 1-3; and on success
    the stock writes of the callback and the status flip are committed
    together. *)
Theorem undo_all_or_nothing (db db' : Db) (req : UndoRequest) (now : Z) (resp : Response) :
  POST db req now = (db', resp) →
  (∀ e c, resp = json_error e c → db' = db)
  ∧ (resp ∈ [NotFound; AlreadyUndone; NotLatest; InsufficientStock] →
     validate db req = Respond resp)
  ∧ (∀ r, resp = json_ok r →
       ∃ t dbs, validate db req = CanUndo t
                ∧ compensate_stock t db = Some (dbs, tt)
                ∧ stock db' = stock dbs
                ∧ transactions db' = <[transactionId req := r]> (transactions db)
                ∧ r = mark_undone t now (userId t)
                ∧ status r = UNDONE).
Proof.
  intros HP. split_and!.
  - intros e c ->. by apply POST_error in HP.
  - intros Hin. rewrite POST_unfold in HP.
    destruct (validate db req) as [r| |t].
    + by simplify_eq.
    + simplify_eq. by apply validation_error_not_thrown in Hin.
    + destruct (commit_cases db t req now) as [[Hc _]|(dbs & t0 & _ & _ & Hc)];
        rewrite Hc in HP; simplify_eq.
      * by apply validation_error_not_thrown in Hin.
      * by apply validation_error_not_ok in Hin.
  - intros r ->. apply POST_ok in HP as (t & dbs & Hv & Hc & -> & ->).
    exists t, dbs. by split_and!.
Qed.

Lemma undo_all_or_nothing_witness :
  let req := mkUndoRequest "T1" "u1" in
  let r := mark_undone putaway_row 7 "u1" in
  POST db_putaway req 7 = (mkDb {[ "T1" := r ]} {[ ("X", "L1") := 0 ]}, json_ok r)
  ∧ ∃ t dbs, validate db_putaway req = CanUndo t
             ∧ compensate_stock t db_putaway = Some (dbs, tt)
             ∧ stock (mkDb {[ "T1" := r ]} {[ ("X", "L1") := 0 ]}) = stock dbs
             ∧ transactions (mkDb {[ "T1" := r ]} {[ ("X", "L1") := 0 ]})
               = <["T1" := r]> (transactions db_putaway)
             ∧ r = mark_undone t 7 (userId t)
             ∧ status r = UNDONE.
Proof.
  intros req r.
  assert (POST db_putaway req 7
          = (mkDb {[ "T1" := r ]} {[ ("X", "L1") := 0 ]}, json_ok r)) as HP
    by (vm_compute; reflexivity).
  split; [exact HP|].
  exact (proj2 (proj2 (undo_all_or_nothing _ _ _ _ _ HP)) r eq_refl).
Defined.

(** ** The undo fields *)

Lemma POST_ok_fields db req now db' r :
  POST db req now = (db', json_ok r) →
  ∃ t, transactions db !! transactionId req = Some t
       ∧ status r = UNDONE ∧ undoneAt r = Some now
       ∧ undoneById r = Some (userId t) ∧ same_core t r.
Proof.
  intros (t & dbs & Hv & _ & -> & _)%POST_ok.
  apply validate_CanUndo in Hv as (Hl & _).
  exists t. by repeat split.
Qed.

(** C4.  User u2 asks to undo a put-away made by user u1.  The row is marked
    UNDONE at the current time, but [undoneById] is u1, the original actor:
    the handler reads only [transactionId] from the request and fills
    [undoneById] from the row's [userId]. *)
Theorem undo_records_original_actor :
  let req := mkUndoRequest "T1" "u2" in
  userId putaway_row = "u1"
  ∧ requestingUserId req = "u2"
  ∧ ∃ db' r, POST db_putaway req 7 = (db', json_ok r)
             ∧ status r = UNDONE ∧ undoneAt r = Some 7
             ∧ undoneById r = Some "u1"
             ∧ undoneById r ≠ Some (requestingUserId req).
Proof.
  simpl. split; [reflexivity|]. split; [reflexivity|].
  eexists _, _. split; [vm_compute; reflexivity|].
  simpl. split_and!; [reflexivity..|discriminate].
Qed.

(** ** Non-negative stock *)

Lemma stock_nonneg_insert (txs : gmap string Transaction)
    (st : gmap (string * string) Z) k q :
  stock_nonneg (mkDb txs st) → 0 ≤ q → stock_nonneg (mkDb txs (<[k := q]> st)).
Proof.
  unfold stock_nonneg; simpl. intros Hnn Hq k' q' Hk'.
  apply lookup_insert_Some in Hk' as [[_ <-]|[_ Hk']]; eauto.
Qed.

Lemma compensate_stock_nonneg db t dbs :
  stock_nonneg db → destination_stock_ok db t → 0 ≤ quantity t →
  compensate_stock t db = Some (dbs, tt) → stock_nonneg dbs.
Proof.
  intros Hnn Hok Hpos. unfold destination_stock_ok in Hok.
  assert (stock_nonneg (mkDb (transactions db) (stock db))) as Hnn' by done.
  destruct (type t) eqn:Hty.
  - destruct Hok as (loc & q & Hto & Hq & Hle).
    rewrite compensate_stock_PUTAWAY, Hto, Hq by done. intros [= <-].
    apply stock_nonneg_insert; [done|lia].
  - rewrite compensate_stock_REMOVE by done.
    destruct (fromLocationId t) as [loc|]; [|done].
    case_bool_decide; [|done]. intros [= <-].
    apply stock_nonneg_insert; [done|].
    rewrite (source_quantity_after_REMOVE _ _ _ Hty).
    destruct (stock db !! _) as [q|] eqn:Hq; [|lia].
    apply Hnn in Hq. lia.
  - destruct Hok as (loc & q & Hto & Hq & Hle).
    rewrite compensate_stock_MOVE, Hto by done.
    destruct (fromLocationId t) as [from|]; [|done]. rewrite Hq.
    case_bool_decide; [|done]. intros [= <-].
    assert (stock_nonneg (mkDb (transactions db)
              (<[(itemId t, loc) := q - quantity t]> (stock db)))) as Hnn1.
    { apply stock_nonneg_insert; [done|lia]. }
    apply stock_nonneg_insert; [done|].
    rewrite (source_quantity_after_MOVE _ _ from _ _ Hty Hto Hq).
    destruct (_ !! (itemId t, from)) as [q'|] eqn:Hq'; [|lia].
    apply Hnn1 in Hq'. lia.
Qed.

(** C5 (as amended).  For an undo call that runs without another request's
    writes coming between its reads and its transaction, on a row whose
    quantity is not negative: if every stock quantity is non-negative before
    the call, every stock quantity is non-negative after it, whatever the
    row's type and whether the call succeeds or fails.  Whenever validation
    lets a PUTAWAY or MOVE through, the destination row holds at least the
    quantity that the callback will take off it; and the undo of a REMOVE,
    which only adds, lowers no stock quantity. *)
Theorem undo_preserves_stock_nonneg (db : Db) (req : UndoRequest) (now : Z) :
  stock_nonneg db →
  (∀ t, transactions db !! transactionId req = Some t → 0 ≤ quantity t) →
  stock_nonneg (POST db req now).1
  ∧ (∀ t, validate db req = CanUndo t → type t ≠ REMOVE →
       ∃ loc q, toLocationId t = Some loc
                ∧ stock db !! (itemId t, loc) = Some q
                ∧ 0 ≤ q - quantity t)
  ∧ (∀ t, validate db req = CanUndo t → type t = REMOVE →
       ∀ k q, stock db !! k = Some q →
              ∃ q', stock (POST db req now).1 !! k = Some q' ∧ q ≤ q').
Proof.
  intros Hnn Hpos. split_and!.
  - destruct (POST db req now) as [db' resp] eqn:HP. simpl.
    destruct resp as [r|e c].
    + apply POST_ok in HP as (t & dbs & Hv & Hc & -> & ->).
      apply validate_CanUndo in Hv as (Hl & _ & _ & Hok).
      pose proof (compensate_stock_nonneg _ _ _ Hnn Hok (Hpos _ Hl) Hc) as Hnn'.
      exact Hnn'.
    + by apply POST_error in HP as ->.
  - intros t (_ & _ & _ & Hok)%validate_CanUndo Hty.
    unfold destination_stock_ok in Hok.
    destruct (type t); [|done|];
      destruct Hok as (loc & q & Hto & Hq & Hle);
      exists loc, q; split_and!; [done|done|lia|done|done|lia].
  - intros t Hv Hty k q Hk.
    pose proof (proj1 (validate_CanUndo _ _ _) Hv) as (Hl & _).
    specialize (Hpos _ Hl).
    rewrite POST_unfold, Hv.
    destruct (commit_cases db t req now) as [[-> _]|(dbs & t0 & Hc & _ & ->)];
      simpl; [by exists q|].
    rewrite compensate_stock_REMOVE in Hc by done.
    destruct (fromLocationId t) as [loc|]; [|done].
    case_bool_decide; [|done]. injection Hc as <-. simpl.
    destruct (decide (k = (itemId t, loc))) as [->|Hne].
    + rewrite lookup_insert_eq, (source_quantity_after_REMOVE _ _ _ Hty), Hk.
      eexists. split; [done|lia].
    + rewrite lookup_insert_ne by done. by exists q.
Qed.

Lemma db_putaway_stock_nonneg : stock_nonneg db_putaway.
Proof.
  intros k q Hk. unfold db_putaway in Hk; simpl in Hk.
  each_row Hk. lia.
Qed.

Lemma undo_preserves_stock_nonneg_witness :
  stock_nonneg db_putaway
  ∧ stock_nonneg (POST db_putaway (mkUndoRequest "T1" "u1") 7).1
  ∧ stock (POST db_putaway (mkUndoRequest "T1" "u1") 7).1 !! ("X", "L1") = Some 0.
Proof.
  split; [exact db_putaway_stock_nonneg|]. split; [|vm_compute; reflexivity].
  apply (undo_preserves_stock_nonneg db_putaway (mkUndoRequest "T1" "u1") 7).
  - exact db_putaway_stock_nonneg.
  - intros t Ht. unfold db_putaway in Ht; simpl in Ht.
    apply lookup_singleton_Some in Ht as [_ <-]. simpl. lia.
Defined.

Lemma db_negative_remove_stock_nonneg : stock_nonneg db_negative_remove.
Proof.
  intros k q Hk. unfold db_negative_remove in Hk; simpl in Hk.
  each_row Hk. lia.
Qed.

(** Against C5 as stated, twice.  Two overlapping undo calls for the same
    put-away of 5 units start from non-negative stock, both succeed, and
    leave -5 at (X, L1): the second call's decrement lands on the 0 the first
    has left.  And an undo call run alone, on a REMOVE row whose quantity is
    -3, starts from non-negative stock and leaves -3 at (X, L1). *)
Lemma undo_leaves_negative_stock :
  (stock_nonneg db_putaway
   ∧ ∃ db2 rA rB,
       POST_overlapping db_putaway (mkUndoRequest "T1" "u1")
         (mkUndoRequest "T1" "u1") 7 8 = (db2, json_ok rA, json_ok rB)
       ∧ stock db2 !! ("X", "L1") = Some (-5)
       ∧ ¬ stock_nonneg db2)
  ∧ (stock_nonneg db_negative_remove
     ∧ ∃ db' r,
         POST db_negative_remove (mkUndoRequest "T1" "u1") 7 = (db', json_ok r)
         ∧ stock db' !! ("X", "L1") = Some (-3)
         ∧ ¬ stock_nonneg db').
Proof.
  split.
  - split; [exact db_putaway_stock_nonneg|].
    eexists _, _, _. split; [vm_compute; reflexivity|].
    split; [vm_compute; reflexivity|].
    intros Hnn. specialize (Hnn ("X", "L1") (-5) ltac:(vm_compute; reflexivity)). lia.
  - split; [exact db_negative_remove_stock_nonneg|].
    eexists _, _. split; [vm_compute; reflexivity|].
    split; [vm_compute; reflexivity|].
    intros Hnn. specialize (Hnn ("X", "L1") (-3) ltac:(vm_compute; reflexivity)). lia.
Qed.

(** ** Undone rows *)

(** C6.  An undo call on a row whose status is UNDONE answers AlreadyUndone
    and writes nothing; so does a second undo call on a row that a first call
    has just undone; and no undo call, on any row, changes a row that is
    UNDONE. *)
Theorem undo_already_undone (db : Db) (req : UndoRequest) (now : Z) :
  (∀ t, transactions db !! transactionId req = Some t → status t = UNDONE →
        POST db req now = (db, AlreadyUndone))
  ∧ (∀ db' r req' now',
       POST db req now = (db', json_ok r) →
       transactionId req' = transactionId req →
       POST db' req' now' = (db', AlreadyUndone))
  ∧ (∀ k t, transactions db !! k = Some t → status t = UNDONE →
            transactions (POST db req now).1 !! k = Some t).
Proof.
  split_and!.
  - intros t. apply POST_AlreadyUndone.
  - intros db' r req' now' (t & dbs & _ & _ & -> & ->)%POST_ok Heq.
    eapply POST_AlreadyUndone; simpl.
    + rewrite Heq. apply lookup_insert_eq.
    + done.
  - intros k t Hk Hst.
    destruct (POST db req now) as [db' resp] eqn:HP. simpl.
    destruct resp as [r|e c].
    + apply POST_ok in HP as (t0 & dbs & Hv & _ & -> & ->). simpl.
      apply validate_CanUndo in Hv as (Hl & Hst0 & _).
      rewrite lookup_insert_ne; [done|].
      intros <-. simplify_eq. congruence.
    + by apply POST_error in HP as ->.
Qed.

Lemma undo_already_undone_witness :
  let req := mkUndoRequest "T1" "u1" in
  let db' := (POST db_putaway req 7).1 in
  POST db_putaway req 7 = (db', json_ok (mark_undone putaway_row 7 "u1"))
  ∧ POST db' req 8 = (db', AlreadyUndone)
  ∧ transactions (POST db' req 8).1 !! "T1" = Some (mark_undone putaway_row 7 "u1").
Proof.
  intros req db'.
  assert (POST db_putaway req 7 = (db', json_ok (mark_undone putaway_row 7 "u1")))
    as HP by (vm_compute; reflexivity).
  split; [exact HP|].
  destruct (undo_already_undone db_putaway req 7) as (_ & Hsecond & _).
  destruct (undo_already_undone db' req 8) as (_ & _ & Hterminal).
  split.
  - exact (Hsecond db' _ req 8 HP eq_refl).
  - apply Hterminal; reflexivity.
Defined.

(** ** Undoing a removal *)

Lemma source_quantity_after_REMOVE_at db t src :
  type t = REMOVE →
  source_quantity_after db t src = quantity_at db (itemId t) src + quantity t.
Proof.
  intros Hty. unfold source_quantity_after.
  by rewrite bool_decide_eq_false_2 by (intros [? _]; congruence).
Qed.

(** C7 (as amended).  The undo of a COMPLETED REMOVE row (its [fromLocationId]
    set, as the data model has it for a REMOVE) that is the latest completed
    row of its item makes no stock check.  It succeeds whenever the quantity
    at (itemId, fromLocationId), zero if there is no such stock row, plus the
    row's quantity fits the 32-bit quantity column: it then adds the row's
    quantity to that stock row, or creates it with the quantity when there is
    none.  When the sum does not fit, the database rejects the write, the
    call answers 500 and nothing is written. *)
Theorem undo_remove_increments_source (db : Db) (req : UndoRequest) (now : Z)
    (t : Transaction) (loc : string) :
  transactions db !! transactionId req = Some t →
  status t = COMPLETED → type t = REMOVE →
  fromLocationId t = Some loc →
  ¬ has_newer_completed db t →
  (in_Int_range (quantity_at db (itemId t) loc + quantity t) →
   ∃ db', POST db req now = (db', json_ok (mark_undone t now (userId t)))
          ∧ stock db' !! (itemId t, loc)
            = Some (quantity_at db (itemId t) loc + quantity t)
          ∧ (stock db !! (itemId t, loc) = None →
             stock db' !! (itemId t, loc) = Some (quantity t))
          ∧ (∀ k, k ≠ (itemId t, loc) → stock db' !! k = stock db !! k))
  ∧ (¬ in_Int_range (quantity_at db (itemId t) loc + quantity t) →
     POST db req now = (db, UndoFailed)).
Proof.
  intros Hl Hst Hty Hfrom Hnew.
  assert (validate db req = CanUndo t) as Hv.
  { apply validate_CanUndo. split_and!; [done..|].
    unfold destination_stock_ok. by rewrite Hty. }
  pose proof (compensate_stock_REMOVE t db Hty) as Hc. rewrite Hfrom in Hc.
  rewrite (source_quantity_after_REMOVE_at _ _ _ Hty) in Hc.
  split.
  - intros Hfit. rewrite bool_decide_eq_true_2 in Hc by done.
    eexists. split; [|split_and!].
    + apply POST_ok. eexists t, _. by split_and!.
    + simpl. by rewrite lookup_insert_eq.
    + intros Hnone. simpl. rewrite lookup_insert_eq. unfold quantity_at.
      by rewrite Hnone.
    + intros k Hk. simpl. by rewrite lookup_insert_ne.
  - intros Hfit. rewrite bool_decide_eq_false_2 in Hc by done.
    rewrite POST_unfold, Hv.
    destruct (commit_cases db t req now) as [[-> _]|(dbs & t0 & Hc' & _)];
      [done|congruence].
Qed.

Lemma db_three_removes_T2_latest :
  ¬ has_newer_completed db_three_removes (remove_row "T2" 3).
Proof.
  intros (k & r & Hk & _ & _ & Hlt). unfold db_three_removes in Hk; simpl in Hk.
  each_row Hk; simpl in Hlt; lia.
Qed.

Lemma undo_remove_increments_source_witness :
  let db := db_three_removes in
  let req := mkUndoRequest "T2" "u1" in
  transactions db !! "T2" = Some (remove_row "T2" 3)
  ∧ in_Int_range (quantity_at db "X" "L1" + 1)
  ∧ ∃ db', POST db req 10 = (db', json_ok (mark_undone (remove_row "T2" 3) 10 "u1"))
           ∧ stock db' !! ("X", "L1") = Some (quantity_at db "X" "L1" + 1).
Proof.
  intros db req. split; [reflexivity|].
  assert (in_Int_range (quantity_at db "X" "L1" + 1)) as Hfit.
  { vm_compute. split; discriminate. }
  split; [exact Hfit|].
  destruct (undo_remove_increments_source db req 10 (remove_row "T2" 3) "L1"
              eq_refl eq_refl eq_refl eq_refl db_three_removes_T2_latest)
    as [Hok _].
  destruct (Hok Hfit) as (db' & HP & Hq & _).
  exists db'. split; [exact HP|exact Hq].
Defined.

Lemma db_big_remove_T1_latest : ¬ has_newer_completed db_big_remove big_remove_row.
Proof.
  intros (k & r & Hk & _ & _ & Hlt). unfold db_big_remove in Hk; simpl in Hk.
  each_row Hk. simpl in Hlt. lia.
Qed.

(** Against C7 as stated: the table's only row is a COMPLETED removal of
    2147483647 units from L1, where 1 unit lies.  The row exists, is COMPLETED
    and is the latest of its item, and its undo is answered with the 500:
    1 + 2147483647 does not fit the quantity column. *)
Lemma undo_remove_out_of_range :
  let req := mkUndoRequest "T1" "u1" in
  transactions db_big_remove !! "T1" = Some big_remove_row
  ∧ status big_remove_row = COMPLETED
  ∧ type big_remove_row = REMOVE
  ∧ fromLocationId big_remove_row = Some "L1"
  ∧ ¬ has_newer_completed db_big_remove big_remove_row
  ∧ POST db_big_remove req 7 = (db_big_remove, UndoFailed)
  ∧ ¬ (∃ db' r, POST db_big_remove req 7 = (db', json_ok r)).
Proof.
  intros req.
  assert (POST db_big_remove req 7 = (db_big_remove, UndoFailed)) as HP
    by (vm_compute; reflexivity).
  split_and!; [reflexivity..|exact db_big_remove_T1_latest|exact HP|].
  intros (db' & r & HP'). rewrite HP in HP'. discriminate.
Qed.

(** ** Frame *)

(** The stock writes touch only the rows of the transaction's item at its two
    locations, and delete nothing. *)
Lemma compensate_stock_frame t db dbs :
  compensate_stock t db = Some (dbs, tt) →
  (∀ item loc,
     stock dbs !! (item, loc) ≠ stock db !! (item, loc) →
     item = itemId t ∧ (fromLocationId t = Some loc ∨ toLocationId t = Some loc))
  ∧ dom (stock db) ⊆ dom (stock dbs).
Proof.
  destruct (type t) eqn:Hty.
  - rewrite compensate_stock_PUTAWAY by done.
    destruct (toLocationId t) as [to|]; [|done].
    destruct (stock db !! _); [|done]. intros [= <-]. simpl. split.
    + intros item loc Hne.
      destruct (decide ((itemId t, to) = (item, loc))) as [[= <- <-]|Hk]; [auto|].
      by rewrite lookup_insert_ne in Hne.
    + apply dom_insert_subseteq.
  - rewrite compensate_stock_REMOVE by done.
    destruct (fromLocationId t) as [from|]; [|done].
    case_bool_decide; [|done]. intros [= <-]. simpl. split.
    + intros item loc Hne.
      destruct (decide ((itemId t, from) = (item, loc))) as [[= <- <-]|Hk]; [auto|].
      by rewrite lookup_insert_ne in Hne.
    + apply dom_insert_subseteq.
  - rewrite compensate_stock_MOVE by done.
    destruct (toLocationId t) as [to|], (fromLocationId t) as [from|]; try done.
    destruct (stock db !! _); [|done].
    case_bool_decide; [|done]. intros [= <-]. simpl. split.
    + intros item loc Hne.
      destruct (decide ((itemId t, from) = (item, loc))) as [[= <- <-]|Hk]; [auto|].
      rewrite lookup_insert_ne in Hne by done.
      destruct (decide ((itemId t, to) = (item, loc))) as [[= <- <-]|Hk']; [auto|].
      by rewrite lookup_insert_ne in Hne.
    + etrans; [|apply dom_insert_subseteq]. apply dom_insert_subseteq.
Qed.

(** C8.  A successful undo rewrites the target row with its core fields
    intact, leaves every other row of the transaction table as it was, adds
    and deletes no row, and changes no stock row other than those of the
    row's item at its source or destination location. *)
Theorem undo_frame (db db' : Db) (req : UndoRequest) (now : Z) (r : Transaction) :
  POST db req now = (db', json_ok r) →
  ∃ t, transactions db !! transactionId req = Some t
       ∧ same_core t r
       ∧ transactions db' !! transactionId req = Some r
       ∧ (∀ k, k ≠ transactionId req → transactions db' !! k = transactions db !! k)
       ∧ dom (transactions db') = dom (transactions db)
       ∧ (∀ item loc,
            stock db' !! (item, loc) ≠ stock db !! (item, loc) →
            item = itemId t
            ∧ (fromLocationId t = Some loc ∨ toLocationId t = Some loc))
       ∧ dom (stock db) ⊆ dom (stock db').
Proof.
  intros (t & dbs & Hv & Hc & -> & ->)%POST_ok.
  apply validate_CanUndo in Hv as (Hl & _).
  destruct (compensate_stock_frame _ _ _ Hc) as [Hframe Hdom].
  exists t. simpl. split_and!; try done.
  - apply lookup_insert_eq.
  - intros k Hk. by rewrite lookup_insert_ne.
  - apply dom_insert_lookup_L. by rewrite Hl.
Qed.

Lemma undo_frame_witness :
  let req := mkUndoRequest "T1" "u1" in
  let r := mark_undone putaway_row 7 "u1" in
  let db' := mkDb {[ "T1" := r ]} {[ ("X", "L1") := 0 ]} in
  POST db_putaway req 7 = (db', json_ok r)
  ∧ ∃ t, transactions db_putaway !! "T1" = Some t
         ∧ same_core t r
         ∧ dom (transactions db') = dom (transactions db_putaway).
Proof.
  intros req r db'.
  assert (POST db_putaway req 7 = (db', json_ok r)) as HP
    by (vm_compute; reflexivity).
  split; [exact HP|].
  destruct (undo_frame _ _ _ _ _ HP) as (t & Hl & Hcore & _ & _ & Hdom & _).
  exists t. split; [exact Hl|]. split; [exact Hcore|exact Hdom].
Defined.

(** ** Overlapping requests *)

(** Step 4 run against a database [db1] that may have moved on since the
    snapshot [db] that steps 1-3 read. *)
Lemma after_validation_cases db db1 req now :
  let '(db2, resp) := after_validation db1 (validate db req) req now in
  (∀ e c, resp = json_error e c → db2 = db1)
  ∧ (∀ r, resp = json_ok r →
       ∃ t t1 dbs, validate db req = CanUndo t
                   ∧ compensate_stock t db1 = Some (dbs, tt)
                   ∧ transactions db1 !! transactionId req = Some t1
                   ∧ r = mark_undone t1 now (userId t)
                   ∧ db2 = mkDb (<[transactionId req := r]> (transactions db1))
                                (stock dbs)).
Proof.
  destruct (validate db req) as [resp| |t] eqn:Hv; simpl.
  - split; [done|]. intros r ->. by apply validate_Respond_not_ok in Hv.
  - split; [done|]. intros r. discriminate.
  - destruct (commit_cases db1 t req now) as [[-> _]|(dbs & t1 & Hc & Hl & ->)].
    + split; [done|]. intros r. discriminate.
    + split; [intros e c; discriminate|].
      intros r [= <-]. by exists t, t1, dbs.
Qed.

(** C9 (as amended).  The compensating stock writes and the status flip of an
    undo run inside one database transaction, which commits all of them or
    none.  The reads that validate the call (row lookup, status check, recency
    query, destination stock) run before that transaction, not inside it: the
    decision is taken on the snapshot [db] they saw, and the writes land on
    the database [db1] as it is when the transaction runs.  With [db1 = db]
    this is the handler run on its own. *)
Theorem undo_writes_atomic_reads_outside (db db1 : Db) (req : UndoRequest) (now : Z) :
  (let '(db2, resp) := after_validation db1 (validate db req) req now in
   (∀ e c, resp = json_error e c → db2 = db1)
   ∧ (∀ r, resp = json_ok r →
        ∃ t t1 dbs, validate db req = CanUndo t
                    ∧ compensate_stock t db1 = Some (dbs, tt)
                    ∧ transactions db1 !! transactionId req = Some t1
                    ∧ r = mark_undone t1 now (userId t)
                    ∧ db2 = mkDb (<[transactionId req := r]> (transactions db1))
                                 (stock dbs)))
  ∧ POST db req now = after_validation db (validate db req) req now.
Proof.
  split; [apply after_validation_cases|reflexivity].
Qed.

(** Against C9 as stated: two undo requests for the same put-away of 5 units
    overlap.  Both pass validation on the same snapshot, both are answered
    with the undone row, and the stock of (X, L1) ends at -5; run one after
    the other, the second is answered AlreadyUndone and the stock ends at 0. *)
Lemma overlapping_undos_both_pass :
  let req := mkUndoRequest "T1" "u1" in
  validate db_putaway req = CanUndo putaway_row
  ∧ (∃ db2 rA rB,
       POST_overlapping db_putaway req req 7 8 = (db2, json_ok rA, json_ok rB)
       ∧ stock db2 !! ("X", "L1") = Some (-5))
  ∧ (∃ db2 rA,
       POST_serial db_putaway req req 7 8 = (db2, json_ok rA, AlreadyUndone)
       ∧ stock db2 !! ("X", "L1") = Some 0).
Proof.
  simpl. split_and!.
  - vm_compute. reflexivity.
  - eexists _, _, _. split; vm_compute; reflexivity.
  - eexists _, _. split; vm_compute; reflexivity.
Qed.

(** ** The history table's Undo button *)

Lemma hasNewerTransactions_true (rows : list Transaction) (t : Transaction) :
  hasNewerTransactions rows t = true ↔
  ∃ r, r ∈ rows ∧ itemId r = itemId t ∧ status r = COMPLETED
       ∧ createdAt t < createdAt r.
Proof.
  unfold hasNewerTransactions. rewrite bool_decide_eq_true.
  set (p := λ r : Transaction, _ && _ && _).
  assert (∀ r, p r = true ↔
               itemId r = itemId t ∧ status r = COMPLETED
               ∧ createdAt t < createdAt r) as Hp.
  { intros r. unfold p. rewrite !andb_true_iff, !bool_decide_eq_true. tauto. }
  split.
  - destruct (List.filter p rows) as [|r rest] eqn:Hf; simpl; [lia|].
    intros _. assert (In r (List.filter p rows)) as Hin by (rewrite Hf; by left).
    apply filter_In in Hin as [Hin Hpr]. exists r. split.
    + by apply list_elem_of_In.
    + by apply Hp.
  - intros (r & Hin & Hr).
    assert (In r (List.filter p rows)) as Hin'.
    { apply filter_In. split; [by apply list_elem_of_In|by apply Hp]. }
    destruct (List.filter p rows); [done|simpl; lia].
Qed.

(** C10.  When the rows shown for the item of a transaction are exactly the
    rows the transaction table holds for that item, [hasNewerTransactions],
    which disables the table's Undo button, is true exactly when the server's
    recency query finds a row; and for a COMPLETED transaction, exactly when
    the server answers the undo request with NotLatest. *)
Theorem hasNewerTransactions_iff_NotLatest (db : Db) (rows : list Transaction)
    (t : Transaction) :
  (∀ r, itemId r = itemId t → (r ∈ rows ↔ ∃ k, transactions db !! k = Some r)) →
  (hasNewerTransactions rows t = true ↔
   is_Some (transaction_findFirst db (more_recent_where t)))
  ∧ (∀ req now,
       transactions db !! transactionId req = Some t →
       status t = COMPLETED →
       hasNewerTransactions rows t = true ↔ (POST db req now).2 = NotLatest).
Proof.
  intros Hrows.
  assert (hasNewerTransactions rows t = true ↔ has_newer_completed db t) as Hiff.
  { rewrite hasNewerTransactions_true. split.
    - intros (r & Hin & Hi & Hs & Hlt).
      apply (Hrows _ Hi) in Hin as [k Hk]. by exists k, r.
    - intros (k & r & Hk & Hi & Hs & Hlt).
      exists r. split_and!; [|done..]. apply (Hrows _ Hi). eauto. }
  split.
  - by rewrite findFirst_more_recent.
  - intros req now Hl Hst.
    rewrite Hiff, POST_NotLatest, validate_NotLatest. split.
    + intros Hnew. by exists t.
    + intros (t' & Hl' & _ & Hnew). by simplify_eq.
Qed.

Lemma three_removes_rows (r : Transaction) :
  r ∈ [remove_row "T2" 3; remove_row "T3" 2; remove_row "T1" 1] ↔
  ∃ k, transactions db_three_removes !! k = Some r.
Proof.
  rewrite !elem_of_cons, elem_of_nil. split.
  - intros [->|[->|[->|[]]]]; [by exists "T2"|by exists "T3"|by exists "T1"].
  - intros [k Hk]. unfold db_three_removes in Hk; simpl in Hk.
    each_row Hk; auto.
Qed.

Lemma hasNewerTransactions_iff_NotLatest_witness :
  let rows := [remove_row "T2" 3; remove_row "T3" 2; remove_row "T1" 1] in
  transactions db_three_removes !! "T3" = Some (remove_row "T3" 2)
  ∧ hasNewerTransactions rows (remove_row "T3" 2) = true
  ∧ is_Some (transaction_findFirst db_three_removes
               (more_recent_where (remove_row "T3" 2)))
  ∧ (POST db_three_removes (mkUndoRequest "T3" "u1") 10).2 = NotLatest.
Proof.
  intros rows. split; [reflexivity|].
  destruct (hasNewerTransactions_iff_NotLatest db_three_removes rows
              (remove_row "T3" 2) (λ r _, three_removes_rows r))
    as [Hquery Hresp].
  split; [reflexivity|]. split.
  - apply Hquery. reflexivity.
  - apply (Hresp (mkUndoRequest "T3" "u1") 10); reflexivity.
Defined.

(** * Further properties of the undo handler *)

(** ** Which response, when *)

Lemma validate_cases db req :
  match validate db req with
  | Respond r =>
      (r = NotFound ∧ transactions db !! transactionId req = None)
      ∨ (∃ t, transactions db !! transactionId req = Some t
              ∧ ((r = AlreadyUndone ∧ status t = UNDONE)
                 ∨ (r = NotLatest ∧ status t = COMPLETED ∧ has_newer_completed db t)
                 ∨ (r = InsufficientStock ∧ status t = COMPLETED
                    ∧ ¬ has_newer_completed db t ∧ type t ≠ REMOVE
                    ∧ ∃ loc q, toLocationId t = Some loc
                               ∧ stock db !! (itemId t, loc) = Some q
                               ∧ q < quantity t)))
  | Thrown =>
      ∃ t, transactions db !! transactionId req = Some t ∧ status t = COMPLETED
           ∧ ¬ has_newer_completed db t ∧ type t ≠ REMOVE
           ∧ ∀ loc, toLocationId t = Some loc → stock db !! (itemId t, loc) = None
  | CanUndo t =>
      transactions db !! transactionId req = Some t ∧ status t = COMPLETED
      ∧ ¬ has_newer_completed db t ∧ destination_stock_ok db t
  end.
Proof.
  destruct (validate db req) as [r| |t'] eqn:Hv; [| |by apply validate_CanUndo].
  - unfold validate, transaction_findUnique, stock_findUnique in Hv.
    destruct (transactions db !! transactionId req) as [t|] eqn:Hl;
      [right; exists t; split; [done|]|left; by simplify_eq].
    case_bool_decide as Hst; [left; by simplify_eq|].
    apply status_not_UNDONE in Hst.
    destruct (transaction_findFirst db _) eqn:Hf.
    { right; left. simplify_eq. split_and!; [done..|].
      apply findFirst_more_recent. by rewrite Hf. }
    apply findFirst_more_recent_None in Hf. right; right.
    destruct (type t) eqn:Hty; [|done|];
      (destruct (toLocationId t) as [loc|]; [|done]);
      (destruct (stock db !! _) as [q|] eqn:Hq; [|done]);
      (case_bool_decide; [|done]); simplify_eq;
      (split_and!; [done..|by exists loc, q]).
  - unfold validate, transaction_findUnique, stock_findUnique in Hv.
    destruct (transactions db !! transactionId req) as [t|] eqn:Hl; [|done].
    exists t. split; [done|].
    case_bool_decide as Hst; [done|]. apply status_not_UNDONE in Hst.
    destruct (transaction_findFirst db _) eqn:Hf; [done|].
    apply findFirst_more_recent_None in Hf.
    destruct (type t) eqn:Hty; [|done|];
      (split_and!; [done..|]); intros loc Hto; rewrite Hto in Hv;
      (destruct (stock db !! _) as [q|] eqn:Hq; [|done]); by case_bool_decide.
Qed.

Lemma POST_error_conditions (db : Db) (req : UndoRequest) (now : Z) :
  ((POST db req now).2 = NotFound ↔ transactions db !! transactionId req = None)
  ∧ ((POST db req now).2 = AlreadyUndone ↔
     ∃ t, transactions db !! transactionId req = Some t ∧ status t = UNDONE)
  ∧ ((POST db req now).2 = InsufficientStock ↔
     ∃ t loc q, transactions db !! transactionId req = Some t
                ∧ status t = COMPLETED ∧ ¬ has_newer_completed db t
                ∧ type t ≠ REMOVE ∧ toLocationId t = Some loc
                ∧ stock db !! (itemId t, loc) = Some q ∧ q < quantity t).
Proof.
  pose proof (validate_cases db req) as Hv. rewrite POST_unfold.
  destruct (validate db req) as [r| |t0]; simpl.
  - destruct Hv as [[-> Hl]|(t & Hl & [[-> Hst]|[(-> & Hst & Hnew)|Hins]])].
    + rewrite Hl. split_and!; split; try done;
        first [by intros (? & ? & ?)|by intros (? & ? & ? & ? & ?)].
    + split_and!; split; try done.
      * by rewrite Hl.
      * eauto.
      * intros (t' & loc & q & Hl' & Hst' & _). simplify_eq. congruence.
    + split_and!; split; try done.
      * by rewrite Hl.
      * intros (t' & Hl' & Hst'). simplify_eq. congruence.
      * intros (t' & loc & q & Hl' & _ & Hnew' & _). by simplify_eq.
    + destruct Hins as (-> & Hst & Hnew & Hty & loc & q & Hto & Hq & Hlt).
      split_and!; split; try done.
      * by rewrite Hl.
      * intros (t' & Hl' & Hst'). simplify_eq. congruence.
      * intros _. by exists t, loc, q.
  - destruct Hv as (t & Hl & Hst & Hnew & Hty & Hrow).
    split_and!; split; try done.
    + by rewrite Hl.
    + intros (t' & Hl' & Hst'). simplify_eq. congruence.
    + intros (t' & loc & q & Hl' & _ & _ & _ & Hto & Hq & _). simplify_eq.
      rewrite (Hrow _ Hto) in Hq. done.
  - destruct Hv as (Hl & Hst & Hnew & Hok).
    assert ((commit db t0 req now).2 ≠ NotFound
            ∧ (commit db t0 req now).2 ≠ AlreadyUndone
            ∧ (commit db t0 req now).2 ≠ InsufficientStock) as (H1 & H2 & H3).
    { destruct (commit_cases db t0 req now) as [[-> _]|(dbs & t1 & _ & _ & ->)];
        by split_and!. }
    split_and!; split; try done.
    + by rewrite Hl.
    + intros (t' & Hl' & Hst'). simplify_eq. congruence.
    + intros (t' & loc & q & Hl' & _ & _ & Hty & Hto & Hq & Hlt). simplify_eq.
      unfold destination_stock_ok in Hok.
      destruct (type t0); [|done|];
        destruct Hok as (loc' & q' & Hto' & Hq' & Hle); simplify_eq; lia.
Qed.

(** X1.  The undo response is 404 'Transaction not found' exactly when no row
    has the requested id, and 400 'Transaction already undone' exactly when
    the row exists with status UNDONE, whatever else holds of it (newer rows,
    stock); it is 400 'Insufficient stock at destination location' exactly
    when the row is a COMPLETED PUTAWAY or MOVE that passes the recency check
    and whose destination stock row exists with less than the row's
    quantity. *)
Theorem undo_error_conditions (db : Db) (req : UndoRequest) (now : Z) :
  ((POST db req now).2 = NotFound ↔ transactions db !! transactionId req = None)
  ∧ ((POST db req now).2 = AlreadyUndone ↔
     ∃ t, transactions db !! transactionId req = Some t ∧ status t = UNDONE)
  ∧ ((POST db req now).2 = InsufficientStock ↔
     ∃ t loc q, transactions db !! transactionId req = Some t
                ∧ status t = COMPLETED ∧ ¬ has_newer_completed db t
                ∧ type t ≠ REMOVE ∧ toLocationId t = Some loc
                ∧ stock db !! (itemId t, loc) = Some q ∧ q < quantity t).
Proof. apply POST_error_conditions. Qed.





(** ** Item-wide totals *)

Lemma item_total_step_comm (item : string) (j1 j2 : string * string) (z1 z2 y : Z) :
  (if bool_decide (j1.1 = item) then z1 + (if bool_decide (j2.1 = item) then z2 + y else y)
   else (if bool_decide (j2.1 = item) then z2 + y else y))
  = (if bool_decide (j2.1 = item) then z2 + (if bool_decide (j1.1 = item) then z1 + y else y)
     else (if bool_decide (j1.1 = item) then z1 + y else y)).
Proof. repeat case_bool_decide; lia. Qed.

Lemma item_total_insert_fresh (st : gmap (string * string) Z) k v item :
  st !! k = None →
  item_total (<[k := v]> st) item
  = item_total st item + (if bool_decide (k.1 = item) then v else 0).
Proof.
  intros Hk. unfold item_total.
  rewrite map_fold_insert_L; [|intros; apply item_total_step_comm|done].
  case_bool_decide; lia.
Qed.

Lemma item_total_insert (st : gmap (string * string) Z) k v item :
  item_total (<[k := v]> st) item
  = item_total st item
    + (if bool_decide (k.1 = item) then v - default 0 (st !! k) else 0).
Proof.
  destruct (st !! k) as [old|] eqn:Hk; simpl.
  - rewrite <- (insert_delete_eq st k v).
    rewrite <- (insert_delete_id st k old) at 2 by done.
    rewrite !item_total_insert_fresh by apply lookup_delete_eq.
    case_bool_decide; lia.
  - rewrite item_total_insert_fresh by done. case_bool_decide; lia.
Qed.

(** X4.  A successful undo changes the item-wide total of the row's item by
    exactly the opposite of what the row's operation did: minus the quantity
    for a PUTAWAY, plus the quantity for a REMOVE, nothing for a MOVE (also
    when source and destination coincide); the totals of all other items are
    unchanged. *)
Theorem undo_changes_item_total (db db' : Db) (req : UndoRequest) (now : Z)
    (r : Transaction) :
  POST db req now = (db', json_ok r) →
  item_total (stock db') (itemId r) = item_total (stock db) (itemId r) + undo_delta r
  ∧ ∀ item, item ≠ itemId r → item_total (stock db') item = item_total (stock db) item.
Proof.
  intros (t & dbs & Hv & Hc & -> & ->)%POST_ok. simpl.
  apply validate_CanUndo in Hv as (_ & _ & _ & Hok).
  unfold undo_delta, destination_stock_ok in *. simpl.
  destruct (type t) eqn:Hty.
  - destruct Hok as (loc & q & Hto & Hq & _).
    rewrite compensate_stock_PUTAWAY, Hto, Hq in Hc by done.
    injection Hc as <-. simpl. split.
    + rewrite item_total_insert, Hq. simpl.
      rewrite bool_decide_eq_true_2 by done. lia.
    + intros item Hne. rewrite item_total_insert.
      rewrite bool_decide_eq_false_2 by (simpl; congruence). lia.
  - rewrite compensate_stock_REMOVE in Hc by done.
    destruct (fromLocationId t) as [loc|]; [|done].
    case_bool_decide; [|done].
    rewrite (source_quantity_after_REMOVE _ _ _ Hty) in Hc.
    injection Hc as <-. simpl. split.
    + rewrite item_total_insert. rewrite bool_decide_eq_true_2 by done.
      destruct (stock db !! _); simpl; lia.
    + intros item Hne. rewrite item_total_insert.
      rewrite bool_decide_eq_false_2 by (simpl; congruence). lia.
  - destruct Hok as (loc & q & Hto & Hq & _).
    rewrite compensate_stock_MOVE, Hto in Hc by done.
    destruct (fromLocationId t) as [from|]; [|done]. rewrite Hq in Hc.
    case_bool_decide; [|done].
    rewrite (source_quantity_after_MOVE _ _ from _ _ Hty Hto Hq) in Hc.
    injection Hc as <-. simpl. split.
    + rewrite !item_total_insert, Hq. simpl.
      rewrite !bool_decide_eq_true_2 by done.
      destruct (_ !! (itemId t, from)); simpl; lia.
    + intros item Hne. rewrite !item_total_insert.
      rewrite !bool_decide_eq_false_2 by (simpl; congruence). lia.
Qed.

Lemma undo_changes_item_total_witness :
  let req := mkUndoRequest "T1" "u1" in
  let r := mark_undone putaway_row 7 "u1" in
  let db' := mkDb {[ "T1" := r ]} {[ ("X", "L1") := 0 ]} in
  POST db_putaway req 7 = (db', json_ok r)
  ∧ item_total (stock db') "X" = item_total (stock db_putaway) "X" + undo_delta r.
Proof.
  intros req r db'.
  assert (POST db_putaway req 7 = (db', json_ok r)) as HP
    by (vm_compute; reflexivity).
  split; [exact HP|].
  exact (proj1 (undo_changes_item_total _ _ _ _ _ HP)).
Defined.

(** ** Undoing a put-away and a move *)







(** * The history query *)

Lemma TransactionType_of_to_string ty :
  TransactionType_of_string (TransactionType_to_string ty) = Some ty.
Proof. by destruct ty. Qed.

Lemma TransactionType_of_string_Some name ty :
  TransactionType_of_string name = Some ty → TransactionType_to_string ty = name.
Proof.
  unfold TransactionType_of_string.
  repeat case_bool_decide; intros; by simplify_eq.
Qed.

Lemma TransactionStatus_of_to_string st :
  TransactionStatus_of_string (TransactionStatus_to_string st) = Some st.
Proof. by destruct st. Qed.

Lemma TransactionStatus_of_string_Some name st :
  TransactionStatus_of_string name = Some st → TransactionStatus_to_string st = name.
Proof.
  unfold TransactionStatus_of_string.
  repeat case_bool_decide; intros; by simplify_eq.
Qed.

Lemma condition_test_holds c f r :
  condition_test c = Some f → f r = true ↔ condition_holds c r.
Proof.
  destruct c as [d|d|name|name|loc|item]; simpl.
  - destruct d as [d'|]; [|done]. simpl. case_bool_decide; [|done].
    intros [= <-]. rewrite bool_decide_eq_true.
    split; [by exists d'|]. by intros (? & [= <-] & ?).
  - destruct d as [d'|]; [|done]. simpl. case_bool_decide; [|done].
    intros [= <-]. rewrite bool_decide_eq_true.
    split; [by exists d'|]. by intros (? & [= <-] & ?).
  - destruct (TransactionType_of_string name) as [ty|] eqn:Hty; [|done].
    intros [= <-]. rewrite bool_decide_eq_true.
    apply TransactionType_of_string_Some in Hty as <-.
    split; [by intros ->|]. by destruct (type r), ty.
  - destruct (TransactionStatus_of_string name) as [st|] eqn:Hst; [|done].
    intros [= <-]. rewrite bool_decide_eq_true.
    apply TransactionStatus_of_string_Some in Hst as <-.
    split; [by intros ->|]. by destruct (status r), st.
  - intros [= <-]. by rewrite orb_true_iff, !bool_decide_eq_true.
  - intros [= <-]. by rewrite bool_decide_eq_true.
Qed.

Lemma where_tests_Some conditions tests r :
  where_tests conditions = Some tests →
  forallb (λ f, f r) tests = true ↔ ∀ c, c ∈ conditions → condition_holds c r.
Proof.
  revert tests. induction conditions as [|c rest IH]; intros tests; simpl.
  - intros [= <-]. split; [|done]. intros _ c Hc. by apply elem_of_nil in Hc.
  - destruct (condition_test c) as [f|] eqn:Hf; [|done].
    destruct (where_tests rest) as [fs|]; [|done]. intros [= <-]. simpl.
    rewrite andb_true_iff, (condition_test_holds _ _ _ Hf), (IH fs eq_refl).
    split.
    + intros [Hc Hrest] c' [->|Hin]%elem_of_cons; auto.
    + intros H. split; [apply H; by left|]. intros c' Hin. apply H. by right.
Qed.

Lemma where_tests_None conditions :
  where_tests conditions = None ↔ ∃ c, c ∈ conditions ∧ condition_test c = None.
Proof.
  induction conditions as [|c rest IH]; simpl.
  - split; [done|]. by intros (c & Hc%elem_of_nil & _).
  - destruct (condition_test c) as [f|] eqn:Hf.
    + destruct (where_tests rest) as [fs|].
      * split; [done|]. intros (c' & [->|Hin]%elem_of_cons & Hn); [congruence|].
        assert (Some fs = None) as Hnone by (apply IH; eauto). done.
      * split; [|done]. intros _.
        destruct (proj1 IH eq_refl) as (c' & Hin & Hn).
        exists c'. split; [by right|done].
    + split; [|done]. intros _. exists c. split; [by left|done].
Qed.

Lemma findMany_rows db conditions rows r :
  transaction_findMany db conditions = Some rows →
  r ∈ rows ↔
  (∃ k, transactions db !! k = Some r) ∧ ∀ c, c ∈ conditions → condition_holds c r.
Proof.
  unfold transaction_findMany.
  destruct (where_tests conditions) as [tests|] eqn:Ht; [|done].
  intros [= <-]. rewrite merge_sort_Permutation.
  rewrite list_elem_of_In, filter_In, <- list_elem_of_In.
  rewrite (where_tests_Some _ _ r Ht), list_elem_of_fmap.
  split.
  - intros [([k r'] & -> & Hin%elem_of_map_to_list) Hc]. eauto.
  - intros [[k Hk] Hc]. split; [|done].
    exists (k, r). split; [done|]. by apply elem_of_map_to_list.
Qed.

Section history_query_facts.

Variable Date_parse : string → option Z.

Lemma elem_of_build_where filters c :
  c ∈ build_where Date_parse filters ↔
  (∃ s, FilterParams.startDate filters = Some s ∧ c = createdAt_gte (Date_parse s))
  ∨ (∃ s, FilterParams.endDate filters = Some s ∧ c = createdAt_lte (Date_parse s))
  ∨ (∃ s, FilterParams.type filters = Some s ∧ c = type_equals s)
  ∨ (∃ s, FilterParams.status filters = Some s ∧ c = status_equals s)
  ∨ (∃ s, FilterParams.locationId filters = Some s ∧ c = location_either s)
  ∨ (∃ s, FilterParams.itemId filters = Some s ∧ c = itemId_equals s).
Proof.
  unfold build_where, filter_Boolean. rewrite list_elem_of_omap.
  split.
  - intros (x & Hx & Hfx).
    repeat (apply elem_of_cons in Hx as [->|Hx]);
      [..|by apply elem_of_nil in Hx].
    + left. destruct (FilterParams.startDate filters); simplify_eq/=; eauto.
    + right; left. destruct (FilterParams.endDate filters); simplify_eq/=; eauto.
    + do 2 right; left. destruct (FilterParams.type filters); simplify_eq/=; eauto.
    + do 3 right; left. destruct (FilterParams.status filters); simplify_eq/=; eauto.
    + do 4 right; left.
      destruct (FilterParams.locationId filters); simplify_eq/=; eauto.
    + do 5 right. destruct (FilterParams.itemId filters); simplify_eq/=; eauto.
  - intros [(s & Hs & ->)|[(s & Hs & ->)|[(s & Hs & ->)|[(s & Hs & ->)|
            [(s & Hs & ->)|(s & Hs & ->)]]]]]; rewrite Hs;
      (eexists; split; [|reflexivity]); rewrite !elem_of_cons; tauto.
Qed.

Lemma GET_rows_elem_of (db : Db) (searchParams : list (string * string))
    (rows : list Transaction) (r : Transaction) :
  GET Date_parse db searchParams = history_ok rows →
  r ∈ rows ↔
  (∃ k, transactions db !! k = Some r)
  ∧ (∀ s, query_param "startDate" searchParams = Some s →
          ∃ d, Date_parse s = Some d ∧ d ≤ createdAt r)
  ∧ (∀ s, query_param "endDate" searchParams = Some s →
          ∃ d, Date_parse s = Some d ∧ createdAt r ≤ d)
  ∧ (∀ s, query_param "type" searchParams = Some s →
          TransactionType_to_string (type r) = s)
  ∧ (∀ s, query_param "status" searchParams = Some s →
          TransactionStatus_to_string (status r) = s)
  ∧ (∀ s, query_param "locationId" searchParams = Some s →
          fromLocationId r = Some s ∨ toLocationId r = Some s)
  ∧ (∀ s, query_param "itemId" searchParams = Some s → itemId r = s).
Proof.
  unfold GET.
  destruct (transaction_findMany db _) as [rows'|] eqn:Hf; [|done].
  intros [= <-]. rewrite (findMany_rows _ _ _ r Hf).
  setoid_rewrite elem_of_build_where.
  change (FilterParams.startDate (extract_filters searchParams))
    with (query_param "startDate" searchParams).
  change (FilterParams.endDate (extract_filters searchParams))
    with (query_param "endDate" searchParams).
  change (FilterParams.type (extract_filters searchParams))
    with (query_param "type" searchParams).
  change (FilterParams.status (extract_filters searchParams))
    with (query_param "status" searchParams).
  change (FilterParams.locationId (extract_filters searchParams))
    with (query_param "locationId" searchParams).
  change (FilterParams.itemId (extract_filters searchParams))
    with (query_param "itemId" searchParams).
  split.
  - intros [Hk Hc]. split; [done|]. split_and!; intros s Hs.
    + destruct (Hc (createdAt_gte (Date_parse s))) as (d & Hd & Hle); eauto.
    + destruct (Hc (createdAt_lte (Date_parse s))) as (d & Hd & Hle);
        [right; left; eauto|eauto].
    + apply (Hc (type_equals s)). do 2 right; left; eauto.
    + apply (Hc (status_equals s)). do 3 right; left; eauto.
    + apply (Hc (location_either s)). do 4 right; left; eauto.
    + apply (Hc (itemId_equals s)). do 5 right; eauto.
  - intros (Hk & H1 & H2 & H3 & H4 & H5 & H6). split; [done|].
    intros c [(s & Hs & ->)|[(s & Hs & ->)|[(s & Hs & ->)|[(s & Hs & ->)|
              [(s & Hs & ->)|(s & Hs & ->)]]]]]; simpl; eauto.
Qed.

(** X7.  When the history query answers with rows, a row is among them
    exactly when it is in the transaction table and meets every filter given
    with a non-empty value: created at or after [startDate], at or before
    [endDate], of the given type, of the given status, with the given location
    as its source or its destination, and of the given item.  A parameter that
    is absent or empty filters nothing. *)
Theorem history_rows_match_filters (db : Db) (searchParams : list (string * string))
    (rows : list Transaction) (r : Transaction) :
  GET Date_parse db searchParams = history_ok rows →
  r ∈ rows ↔
  (∃ k, transactions db !! k = Some r)
  ∧ (∀ s, query_param "startDate" searchParams = Some s →
          ∃ d, Date_parse s = Some d ∧ d ≤ createdAt r)
  ∧ (∀ s, query_param "endDate" searchParams = Some s →
          ∃ d, Date_parse s = Some d ∧ createdAt r ≤ d)
  ∧ (∀ s, query_param "type" searchParams = Some s →
          TransactionType_to_string (type r) = s)
  ∧ (∀ s, query_param "status" searchParams = Some s →
          TransactionStatus_to_string (status r) = s)
  ∧ (∀ s, query_param "locationId" searchParams = Some s →
          fromLocationId r = Some s ∨ toLocationId r = Some s)
  ∧ (∀ s, query_param "itemId" searchParams = Some s → itemId r = s).
Proof. apply GET_rows_elem_of. Qed.

End history_query_facts.

#[global] Instance newest_first_transitive : Transitive newest_first.
Proof. unfold newest_first. intros a b c ? ?. lia. Qed.

#[global] Instance newest_first_total : Total newest_first.
Proof. unfold newest_first. intros a b. lia. Qed.

Lemma TransactionType_of_string_None s :
  TransactionType_of_string s = None ↔ s ∉ ["PUTAWAY"; "REMOVE"; "MOVE"].
Proof.
  unfold TransactionType_of_string. rewrite !not_elem_of_cons.
  repeat case_bool_decide; split; try done; try tauto.
  intros _. split_and!; [done..|]. apply not_elem_of_nil.
Qed.

Lemma TransactionStatus_of_string_None s :
  TransactionStatus_of_string s = None ↔ s ∉ ["COMPLETED"; "UNDONE"].
Proof.
  unfold TransactionStatus_of_string. rewrite !not_elem_of_cons.
  repeat case_bool_decide; split; try done; try tauto.
  intros _. split_and!; [done..|]. apply not_elem_of_nil.
Qed.

Lemma findMany_sorted db conditions rows :
  transaction_findMany db conditions = Some rows →
  StronglySorted newest_first rows
  ∧ (length rows ≤ size (transactions db))%nat
  ∧ (ids_are_keys db → NoDup rows).
Proof.
  unfold transaction_findMany.
  destruct (where_tests conditions) as [tests|]; [|done]. intros [= <-].
  split_and!.
  - apply StronglySorted_merge_sort; apply _.
  - rewrite merge_sort_Permutation.
    etrans; [apply filter_length_le|].
    by rewrite length_fmap, length_map_to_list.
  - intros Hids. rewrite merge_sort_Permutation.
    apply NoDup_ListNoDup, List.NoDup_filter, NoDup_ListNoDup.
    apply NoDup_fmap_2_strong; [|apply NoDup_map_to_list].
    intros [k1 r1] [k2 r2] H1%elem_of_map_to_list H2%elem_of_map_to_list.
    simpl. intros <-. f_equal.
    by rewrite <- (Hids _ _ H1), <- (Hids _ _ H2).
Qed.

Section history_order_and_errors.

Variable Date_parse : string → option Z.

(** X8.  The rows of a history response come newest first: no row is older
    than a row after it.  There are at most as many rows as the table holds,
    and when every row sits under its own id no row comes twice. *)
Theorem history_rows_newest_first (db : Db) (searchParams : list (string * string))
    (rows : list Transaction) :
  GET Date_parse db searchParams = history_ok rows →
  (∀ before a after b, rows = (before ++ a :: after)%list → b ∈ after →
                       createdAt b ≤ createdAt a)
  ∧ (length rows ≤ size (transactions db))%nat
  ∧ (ids_are_keys db → NoDup rows).
Proof.
  unfold GET.
  destruct (transaction_findMany db _) as [rows'|] eqn:Hf; [|done].
  intros [= <-]. destruct (findMany_sorted _ _ _ Hf) as (Hs & Hlen & Hnd).
  split_and!; [|done..].
  intros before a after b -> Hb.
  apply StronglySorted_app in Hs as (_ & _ & Hs).
  apply StronglySorted_cons in Hs as [Ha _].
  rewrite Forall_forall in Ha. by apply Ha.
Qed.

Lemma GET_error_iff (db : Db) (searchParams : list (string * string)) :
  let invalid :=
    (∃ s, query_param "startDate" searchParams = Some s
          ∧ accepted_date (Date_parse s) = None)
    ∨ (∃ s, query_param "endDate" searchParams = Some s
            ∧ accepted_date (Date_parse s) = None)
    ∨ (∃ s, query_param "type" searchParams = Some s
            ∧ s ∉ ["PUTAWAY"; "REMOVE"; "MOVE"])
    ∨ (∃ s, query_param "status" searchParams = Some s
            ∧ s ∉ ["COMPLETED"; "UNDONE"]) in
  (GET Date_parse db searchParams
   = history_error "Failed to fetch transaction history" 500 ↔ invalid)
  ∧ ((∃ rows, GET Date_parse db searchParams = history_ok rows) ↔ ¬ invalid).
Proof.
  intros invalid.
  assert (where_tests (build_where Date_parse (extract_filters searchParams)) = None
          ↔ invalid) as Hinv.
  { rewrite where_tests_None. setoid_rewrite elem_of_build_where. unfold invalid.
    change (FilterParams.startDate (extract_filters searchParams))
      with (query_param "startDate" searchParams).
    change (FilterParams.endDate (extract_filters searchParams))
      with (query_param "endDate" searchParams).
    change (FilterParams.type (extract_filters searchParams))
      with (query_param "type" searchParams).
    change (FilterParams.status (extract_filters searchParams))
      with (query_param "status" searchParams).
    split.
    - intros (c & [(s & Hs & ->)|[(s & Hs & ->)|[(s & Hs & ->)|[(s & Hs & ->)|
                   [(s & Hs & ->)|(s & Hs & ->)]]]]] & Hn); simpl in Hn.
      + left. exists s. split; [done|].
        by destruct (accepted_date (Date_parse s)).
      + right; left. exists s. split; [done|].
        by destruct (accepted_date (Date_parse s)).
      + do 2 right; left. exists s. split; [done|].
        apply TransactionType_of_string_None.
        by destruct (TransactionType_of_string s).
      + do 3 right. exists s. split; [done|].
        apply TransactionStatus_of_string_None.
        by destruct (TransactionStatus_of_string s).
      + done.
      + done.
    - intros [(s & Hs & Hn)|[(s & Hs & Hn)|[(s & Hs & Hn)|(s & Hs & Hn)]]].
      + exists (createdAt_gte (Date_parse s)). split; [eauto|].
        simpl. by rewrite Hn.
      + exists (createdAt_lte (Date_parse s)). split; [right; left; eauto|].
        simpl. by rewrite Hn.
      + exists (type_equals s). split; [do 2 right; left; eauto|].
        simpl. apply TransactionType_of_string_None in Hn. by rewrite Hn.
      + exists (status_equals s). split; [do 3 right; left; eauto|].
        simpl. apply TransactionStatus_of_string_None in Hn. by rewrite Hn. }
  unfold GET, transaction_findMany.
  destruct (where_tests _) as [tests|] eqn:Ht.
  - assert (¬ invalid) as Hvalid by (rewrite <- Hinv; done).
    split; [split; [done|by intros ?]|]. split; [done|eauto].
  - assert invalid as Hinvalid by (by apply Hinv).
    split; [done|]. split; [by intros [? ?]|by intros ?].
Qed.

(** X9.  The history query fails, with 500 'Failed to fetch transaction
    history', exactly when a filter given with a non-empty value is rejected
    by the database client: a [startDate] or [endDate] that is no date or is
    a date outside the years 0 to 9999, a [type] other than PUTAWAY, REMOVE or
    MOVE, a [status] other than COMPLETED or UNDONE.  Otherwise it answers
    with rows.  The table's content plays no part in this. *)
Theorem history_fails_iff (db : Db) (searchParams : list (string * string)) :
  let invalid :=
    (∃ s, query_param "startDate" searchParams = Some s
          ∧ accepted_date (Date_parse s) = None)
    ∨ (∃ s, query_param "endDate" searchParams = Some s
            ∧ accepted_date (Date_parse s) = None)
    ∨ (∃ s, query_param "type" searchParams = Some s
            ∧ s ∉ ["PUTAWAY"; "REMOVE"; "MOVE"])
    ∨ (∃ s, query_param "status" searchParams = Some s
            ∧ s ∉ ["COMPLETED"; "UNDONE"]) in
  (GET Date_parse db searchParams
   = history_error "Failed to fetch transaction history" 500 ↔ invalid)
  ∧ ((∃ rows, GET Date_parse db searchParams = history_ok rows) ↔ ¬ invalid).
Proof. apply GET_error_iff. Qed.

End history_order_and_errors.

Lemma history_rows_match_filters_witness :
  let searchParams := [("type", "REMOVE"); ("status", "")] in
  let rows := [remove_row "T2" 3; remove_row "T3" 2; remove_row "T1" 1] in
  GET (λ _, None) db_three_removes searchParams = history_ok rows
  ∧ (remove_row "T3" 2 ∈ rows ↔
     (∃ k, transactions db_three_removes !! k = Some (remove_row "T3" 2))
     ∧ (∀ s, query_param "startDate" searchParams = Some s →
             ∃ d, (λ _ : string, @None Z) s = Some d ∧ d ≤ 2)
     ∧ (∀ s, query_param "endDate" searchParams = Some s →
             ∃ d, (λ _ : string, @None Z) s = Some d ∧ 2 ≤ d)
     ∧ (∀ s, query_param "type" searchParams = Some s → "REMOVE" = s)
     ∧ (∀ s, query_param "status" searchParams = Some s → "COMPLETED" = s)
     ∧ (∀ s, query_param "locationId" searchParams = Some s →
             Some "L1" = Some s ∨ None = Some s)
     ∧ (∀ s, query_param "itemId" searchParams = Some s → "X" = s)).
Proof.
  intros searchParams rows.
  assert (GET (λ _, None) db_three_removes searchParams = history_ok rows) as HG
    by (vm_compute; reflexivity).
  split; [exact HG|].
  exact (history_rows_match_filters (λ _, None) db_three_removes searchParams rows
           (remove_row "T3" 2) HG).
Defined.

Lemma history_rows_newest_first_witness :
  let rows := [remove_row "T2" 3; remove_row "T3" 2; remove_row "T1" 1] in
  GET (λ _, None) db_three_removes [] = history_ok rows
  ∧ (∀ before a after b, rows = (before ++ a :: after)%list → b ∈ after →
                         createdAt b ≤ createdAt a)
  ∧ (length rows ≤ size (transactions db_three_removes))%nat.
Proof.
  intros rows.
  assert (GET (λ _, None) db_three_removes [] = history_ok rows) as HG
    by (vm_compute; reflexivity).
  split; [exact HG|].
  destruct (history_rows_newest_first (λ _, None) db_three_removes [] rows HG)
    as (Hsorted & Hlen & _).
  split; [exact Hsorted|exact Hlen].
Defined.

(** * The history page *)

Lemma TransactionType_to_string_inj ty1 ty2 :
  TransactionType_to_string ty1 = TransactionType_to_string ty2 → ty1 = ty2.
Proof. by destruct ty1, ty2. Qed.

Lemma TransactionStatus_to_string_inj st1 st2 :
  TransactionStatus_to_string st1 = TransactionStatus_to_string st2 → st1 = st2.
Proof. by destruct st1, st2. Qed.

Lemma fetch_query_params filters :
  query_param "startDate" (fetch_query filters) = None
  ∧ query_param "endDate" (fetch_query filters) = None
  ∧ query_param "type" (fetch_query filters)
    = TransactionType_to_string <$> filter_type filters
  ∧ query_param "status" (fetch_query filters)
    = TransactionStatus_to_string <$> filter_status filters
  ∧ query_param "locationId" (fetch_query filters) = None
  ∧ query_param "itemId" (fetch_query filters) = None.
Proof.
  destruct filters as [[[]|] [[]|]]; by split_and!.
Qed.

Section history_page.

Variable Date_parse : string → option Z.

(** What [fetchTransactions] gets: the query the page builds is always
    accepted, and the rows are those of the table that pass the page's
    filters. *)
Lemma fetch_rows db filters :
  ∃ rows, GET Date_parse db (fetch_query filters) = history_ok rows
          ∧ ∀ r, r ∈ rows ↔
                 (∃ k, transactions db !! k = Some r) ∧ passes_page_filters filters r.
Proof.
  destruct (fetch_query_params filters) as (Hs & He & Hty & Hst & Hl & Hi).
  destruct (GET_error_iff Date_parse db (fetch_query filters)) as [_ Hok].
  destruct (proj2 Hok) as [rows HG].
  { rewrite Hs, He, Hty, Hst.
    intros [(s & ? & _)|[(s & ? & _)|[(s & Hs' & Hn)|(s & Hs' & Hn)]]];
      [done|done| |].
    - destruct (filter_type filters) as [ty|]; simplify_eq/=.
      apply Hn. destruct ty; rewrite !elem_of_cons; tauto.
    - destruct (filter_status filters) as [st|]; simplify_eq/=.
      apply Hn. destruct st; rewrite !elem_of_cons; tauto. }
  exists rows. split; [done|]. intros r.
  rewrite (GET_rows_elem_of Date_parse _ _ _ r HG).
  rewrite Hs, He, Hty, Hst, Hl, Hi. unfold passes_page_filters.
  split.
  - intros (Hk & _ & _ & Htype & Hstatus & _ & _). split; [done|]. split.
    + intros ty Hf. apply TransactionType_to_string_inj, Htype. by rewrite Hf.
    + intros st Hf. apply TransactionStatus_to_string_inj, Hstatus. by rewrite Hf.
  - intros (Hk & Htype & Hstatus). split; [done|]. split_and!; try done.
    + intros s Hf. destruct (filter_type filters) as [ty|]; simplify_eq/=.
      by rewrite (Htype ty).
    + intros s Hf. destruct (filter_status filters) as [st|]; simplify_eq/=.
      by rewrite (Hstatus st).
Qed.

(** X10.  Whatever filters are chosen on the history page, its query is
    answered with rows, never with the 500: the rows are exactly the rows of
    the transaction table of the chosen type (if one is chosen) and of the
    chosen status (if one is chosen). *)
Theorem page_fetch_never_fails (db : Db) (filters : FilterState) :
  ∃ rows, GET Date_parse db (fetch_query filters) = history_ok rows
          ∧ ∀ r, r ∈ rows ↔
                 (∃ k, transactions db !! k = Some r) ∧ passes_page_filters filters r.
Proof. apply fetch_rows. Qed.

Lemma fetched_hasNewerTransactions db filters rows t :
  GET Date_parse db (fetch_query filters) = history_ok rows →
  hasNewerTransactions rows t = true ↔
  ∃ k r, transactions db !! k = Some r ∧ passes_page_filters filters r
         ∧ itemId r = itemId t ∧ status r = COMPLETED ∧ createdAt t < createdAt r.
Proof.
  intros HG. destruct (fetch_rows db filters) as (rows' & HG' & Hrows).
  rewrite HG in HG'. injection HG' as <-.
  rewrite hasNewerTransactions_true. split.
  - intros (r & [[k Hk] Hpass]%Hrows & Hr). by exists k, r.
  - intros (k & r & Hk & Hpass & Hr). exists r. split; [|done].
    apply Hrows. eauto.
Qed.

(** X11.  On the rows the page has fetched, [hasNewerTransactions] holds of a
    transaction exactly when the table holds a newer COMPLETED row of the same
    item that passes the page's filters.  So for a COMPLETED transaction whose
    Undo button the page disables for that reason, the server would indeed
    answer NotLatest; but with a type filter, or the status filter UNDONE, a
    newer row that the filter hides does not disable the button. *)
Theorem page_disabled_button_sound (db : Db) (filters : FilterState)
    (rows : list Transaction) (req : UndoRequest) (now : Z) (t : Transaction) :
  GET Date_parse db (fetch_query filters) = history_ok rows →
  (hasNewerTransactions rows t = true ↔
   ∃ k r, transactions db !! k = Some r ∧ passes_page_filters filters r
          ∧ itemId r = itemId t ∧ status r = COMPLETED ∧ createdAt t < createdAt r)
  ∧ (transactions db !! transactionId req = Some t → status t = COMPLETED →
     hasNewerTransactions rows t = true → (POST db req now).2 = NotLatest).
Proof.
  intros HG. split; [by apply fetched_hasNewerTransactions|].
  intros Hl Hst (k & r & Hk & _ & Hr)%(fetched_hasNewerTransactions _ _ _ _ HG).
  apply POST_NotLatest, validate_NotLatest. exists t. split_and!; [done..|].
  by exists k, r.
Qed.

(** X12.  When the page has no type filter and its status filter is not
    UNDONE, the Undo button of a COMPLETED transaction in freshly fetched rows
    is disabled for newer transactions exactly when the server would answer
    the undo request with NotLatest. *)
Theorem page_button_agrees_with_server (db : Db) (filters : FilterState)
    (rows : list Transaction) (req : UndoRequest) (now : Z) (t : Transaction) :
  GET Date_parse db (fetch_query filters) = history_ok rows →
  filter_type filters = None → filter_status filters ≠ Some UNDONE →
  transactions db !! transactionId req = Some t → status t = COMPLETED →
  hasNewerTransactions rows t = true ↔ (POST db req now).2 = NotLatest.
Proof.
  intros HG Hty Hst Hl Hs.
  rewrite (fetched_hasNewerTransactions _ _ _ _ HG), POST_NotLatest,
    validate_NotLatest.
  split.
  - intros (k & r & Hk & _ & Hr). exists t. split_and!; [done..|]. by exists k, r.
  - intros (t' & Hl' & _ & k & r & Hk & Hi & Hc & Hlt). simplify_eq.
    exists k, r. split_and!; try done. split.
    + intros ty Hf. congruence.
    + intros st Hf. destruct st; congruence.
Qed.

End history_page.

Lemma ids_are_keys_POST db req now :
  ids_are_keys db → ids_are_keys (POST db req now).1.
Proof.
  intros Hids. destruct (POST db req now) as [db' resp] eqn:HP. simpl.
  destruct resp as [r|e c]; [|by apply POST_error in HP as ->].
  apply POST_ok in HP as (t & dbs & Hv & _ & -> & ->).
  apply validate_CanUndo in Hv as (Hl & _).
  intros k r' Hk. simpl in Hk.
  apply lookup_insert_Some in Hk as [[<- <-]|[_ Hk]]; [|by apply Hids].
  simpl. by apply Hids.
Qed.

Section history_page_undo.

Variable Date_parse : string → option Z.


(** X14.  After a successful undo, the list the page fetches next shows the
    undone row, if the page's filters let it through, and gives it no Undo
    button: any fetched row with the request's id is the undone row.  Rows
    keep sitting under their own ids. *)
Theorem refreshed_row_has_no_button (db db' : Db) (req : UndoRequest) (now : Z)
    (r : Transaction) (filters : FilterState) (rows' : list Transaction)
    (isLoading : bool) :
  ids_are_keys db →
  POST db req now = (db', json_ok r) →
  GET Date_parse db' (fetch_query filters) = history_ok rows' →
  ids_are_keys db'
  ∧ (∀ r', r' ∈ rows' → id r' = transactionId req →
           r' = r ∧ undo_button rows' isLoading r' = no_button)
  ∧ (passes_page_filters filters r → r ∈ rows').
Proof.
  intros Hids HP HG.
  pose proof (ids_are_keys_POST db req now Hids) as Hids'. rewrite HP in Hids'.
  simpl in Hids'.
  destruct (fetch_rows Date_parse db' filters) as (rows & HG' & Hrows).
  rewrite HG in HG'. injection HG' as <-.
  apply POST_ok in HP as (t & dbs & _ & _ & Hr & ->).
  split_and!; [done| |].
  - intros r' [[k Hk] _]%Hrows Hid.
    rewrite <- (Hids' _ _ Hk), Hid in Hk. simpl in Hk.
    rewrite lookup_insert_eq in Hk. injection Hk as <-.
    split; [done|]. unfold undo_button. by rewrite Hr.
  - intros Hpass. apply Hrows. split; [|done].
    exists (transactionId req). simpl. apply lookup_insert_eq.
Qed.

End history_page_undo.


Lemma db_putaway_ids : ids_are_keys db_putaway.
Proof.
  intros k r Hk. unfold db_putaway in Hk; simpl in Hk. by each_row Hk.
Qed.

Lemma page_disabled_button_sound_witness :
  let rows := [remove_row "T2" 3; remove_row "T3" 2; remove_row "T1" 1] in
  let filters := mkFilterState (Some REMOVE) None in
  GET (λ _, None) db_three_removes (fetch_query filters) = history_ok rows
  ∧ hasNewerTransactions rows (remove_row "T3" 2) = true
  ∧ (POST db_three_removes (mkUndoRequest "T3" "u1") 10).2 = NotLatest.
Proof.
  intros rows filters.
  assert (GET (λ _, None) db_three_removes (fetch_query filters) = history_ok rows)
    as HG by (vm_compute; reflexivity).
  split; [exact HG|]. split; [reflexivity|].
  apply (page_disabled_button_sound (λ _, None) db_three_removes filters rows
           (mkUndoRequest "T3" "u1") 10 (remove_row "T3" 2) HG);
    reflexivity.
Defined.

Lemma page_button_agrees_with_server_witness :
  let rows := [remove_row "T2" 3; remove_row "T3" 2; remove_row "T1" 1] in
  let filters := mkFilterState None (Some COMPLETED) in
  GET (λ _, None) db_three_removes (fetch_query filters) = history_ok rows
  ∧ (hasNewerTransactions rows (remove_row "T2" 3) = true ↔
     (POST db_three_removes (mkUndoRequest "T2" "u1") 10).2 = NotLatest).
Proof.
  intros rows filters.
  assert (GET (λ _, None) db_three_removes (fetch_query filters) = history_ok rows)
    as HG by (vm_compute; reflexivity).
  split; [exact HG|].
  apply (page_button_agrees_with_server (λ _, None) db_three_removes filters rows
           (mkUndoRequest "T2" "u1") 10 (remove_row "T2" 3) HG);
    [reflexivity|discriminate|reflexivity|reflexivity].
Defined.


Lemma refreshed_row_has_no_button_witness :
  let req := mkUndoRequest "T1" "u1" in
  let r := mark_undone putaway_row 7 "u1" in
  let db' := mkDb {[ "T1" := r ]} {[ ("X", "L1") := 0 ]} in
  POST db_putaway req 7 = (db', json_ok r)
  ∧ GET (λ _, None) db' (fetch_query (mkFilterState None None)) = history_ok [r]
  ∧ (∀ r', r' ∈ [r] → id r' = "T1" →
           r' = r ∧ undo_button [r] false r' = no_button).
Proof.
  intros req r db'.
  assert (POST db_putaway req 7 = (db', json_ok r)) as HP
    by (vm_compute; reflexivity).
  assert (GET (λ _, None) db' (fetch_query (mkFilterState None None))
          = history_ok [r]) as HG by (vm_compute; reflexivity).
  split; [exact HP|]. split; [exact HG|].
  exact (proj1 (proj2 (refreshed_row_has_no_button (λ _, None) db_putaway db' req 7
                         r (mkFilterState None None) [r] false
                         db_putaway_ids HP HG))).
Defined.

(** * The stock summary page *)

Lemma reduce_by_location_Some stock_ acc groups label :
  reduce_by_location stock_ acc = Some groups →
  groups !! label =
  match acc !! label with
  | Some rows => Some (rows ++ rows_at label stock_)%list
  | None => match rows_at label stock_ with
            | [] => None
            | rows => Some rows
            end
  end.
Proof.
  revert acc. induction stock_ as [|curr rest IH]; intros acc; simpl.
  - intros [= <-]. destruct (acc !! label); [by rewrite app_nil_r|done].
  - unfold group_by_location_step.
    destruct (acc !! location_label curr) as [rows|] eqn:Hcurr.
    + intros Hg%IH. rewrite Hg.
      case_bool_decide as Heq; simplify_eq.
      * by rewrite lookup_insert_eq, Hcurr, <- app_assoc.
      * by rewrite lookup_insert_ne.
    + case_bool_decide; [done|]. intros Hg%IH. rewrite Hg.
      case_bool_decide as Heq; simplify_eq.
      * by rewrite lookup_insert_eq, Hcurr.
      * by rewrite lookup_insert_ne.
Qed.

Lemma reduce_by_location_None stock_ acc :
  (∀ label, label ∈ Object_prototype_names → acc !! label = None) →
  reduce_by_location stock_ acc = None ↔
  ∃ row, row ∈ stock_ ∧ location_label row ∈ Object_prototype_names.
Proof.
  revert acc. induction stock_ as [|curr rest IH]; intros acc Hacc; simpl.
  - split; [done|]. by intros (row & Hin%elem_of_nil & _).
  - unfold group_by_location_step.
    destruct (acc !! location_label curr) as [rows|] eqn:Hcurr.
    + assert (location_label curr ∉ Object_prototype_names) as Hnot.
      { intros Hin. rewrite (Hacc _ Hin) in Hcurr. done. }
      rewrite IH.
      * split.
        -- intros (row & Hin & Hp). exists row. split; [by right|done].
        -- intros (row & [->|Hin]%elem_of_cons & Hp); [done|eauto].
      * intros label Hin. rewrite lookup_insert_ne; [by apply Hacc|].
        intros <-. done.
    + case_bool_decide as Hin.
      * split; [|done]. intros _. exists curr. split; [by left|done].
      * rewrite IH.
        -- split.
           ++ intros (row & Hin' & Hp). exists row. split; [by right|done].
           ++ intros (row & [->|Hin']%elem_of_cons & Hp); [done|eauto].
        -- intros label Hin'. rewrite lookup_insert_ne; [by apply Hacc|].
           intros <-. done.
Qed.

(** X15.  When the stock summary's grouping goes through, every location
    label that occurs among the stock rows has a group, made of exactly the
    rows at that label in the order they came; a label that does not occur has
    none, so no group is empty. *)
Theorem stockByLocation_groups (stock_ : list StockRow)
    (groups : gmap string (list StockRow)) (label : string) :
  stockByLocation stock_ = Some groups →
  groups !! label =
  match rows_at label stock_ with
  | [] => None
  | rows => Some rows
  end.
Proof.
  intros Hg. rewrite (reduce_by_location_Some _ _ _ label Hg).
  by rewrite lookup_empty.
Qed.

Lemma stockByLocation_groups_witness :
  let a := mkStockRow "X" "l1" 5 "TEST001" "TEST" "A-01-01" in
  let b := mkStockRow "X" "l2" 2 "TEST001" "TEST" "A-01-02" in
  let c := mkStockRow "Y" "l1" 8 "TEST002" "TEST" "A-01-01" in
  ∃ groups, stockByLocation [a; b; c] = Some groups
            ∧ groups !! "A-01-01" = Some [a; c]
            ∧ groups !! "B-09-09" = None.
Proof.
  intros a b c.
  destruct (stockByLocation [a; b; c]) as [groups|] eqn:Hg;
    [|vm_compute in Hg; discriminate].
  exists groups. split; [reflexivity|]. split.
  - exact (stockByLocation_groups [a; b; c] groups "A-01-01" Hg).
  - exact (stockByLocation_groups [a; b; c] groups "B-09-09" Hg).
Defined.

(** X16.  The stock summary's grouping throws exactly when some stock row
    sits at a location whose label is the name of a member every object
    inherits, such as [constructor] or [toString]: the reducer then takes the
    inherited member for the location's group and calls [push] on it. *)
Theorem stockByLocation_throws_iff (stock_ : list StockRow) :
  stockByLocation stock_ = None ↔
  ∃ row, row ∈ stock_ ∧ location_label row ∈ Object_prototype_names.
Proof.
  apply reduce_by_location_None. intros label _. apply lookup_empty.
Qed.

(** * The SKU table: CSV export and import *)

Example handleDownload_two_items :
  let acme := Company.mk (js "c1") (js "ACME") in
  handleDownload [Item.mk (js "i1") (js "A-1") (js "Bolt") (js "123") acme;
                  Item.mk (js "i2") (js "A-2") (js "Nut, small") (js "456") acme]
  = (js "SKU,Name,Barcode,Company" ++ [LF] ++ js "A-1,Bolt,123,ACME" ++ [LF]
     ++ js "A-2,Nut, small,456,ACME")%list.
Proof. vm_compute. reflexivity. Qed.

Example handleFileUpload_two_items :
  let acme := Company.mk (js "c1") (js "ACME") in
  handleFileUpload
    (js "SKU,Name,Barcode,Company" ++ [LF] ++ js "A-1,Bolt,123,ACME" ++ [LF]
     ++ js "A-2,Nut, small,456,ACME")%list [acme]
  = import_steps [post_item (Some (js "A-1")) (Some (js "Bolt")) (Some (js "123"))
                    (js "c1")].
Proof. vm_compute. reflexivity. Qed.

(** ** Splitting and joining *)

Local Open Scope list_scope.

Lemma split_on_nonempty sep s : split_on sep s ≠ [].
Proof.
  destruct s as [|c rest]; simpl; [done|].
  destruct (c =? sep)%N; [done|]. by destruct (split_on sep rest).
Qed.

Lemma split_on_no_sep sep s : sep ∉ s → split_on sep s = [s].
Proof.
  induction s as [|c rest IH]; simpl; [done|].
  intros [Hc Hrest]%not_elem_of_cons.
  destruct (N.eqb_spec c sep) as [->|_]; [done|]. by rewrite IH.
Qed.

Lemma split_on_app_sep sep p rest :
  sep ∉ p → split_on sep (p ++ sep :: rest) = p :: split_on sep rest.
Proof.
  induction p as [|c p IH]; simpl.
  - intros _. by rewrite N.eqb_refl.
  - intros [Hc Hp]%not_elem_of_cons.
    destruct (N.eqb_spec c sep) as [->|_]; [done|]. by rewrite IH.
Qed.

Lemma split_on_join sep parts :
  parts ≠ [] → (∀ p, p ∈ parts → sep ∉ p) →
  split_on sep (join [sep] parts) = parts.
Proof.
  induction parts as [|p rest IH]; [done|]. intros _ Hparts.
  destruct rest as [|q rest].
  - simpl. apply split_on_no_sep, Hparts. by left.
  - change (join [sep] (p :: q :: rest)) with (p ++ sep :: join [sep] (q :: rest)).
    rewrite split_on_app_sep by (apply Hparts; by left).
    rewrite IH; [done|done|]. intros p' Hp'. apply Hparts. by right.
Qed.

Lemma elem_of_join x sep parts :
  x ∈ join [sep] parts → x = sep ∨ ∃ p, p ∈ parts ∧ x ∈ p.
Proof.
  induction parts as [|p rest IH]; simpl; [by intros ?%elem_of_nil|].
  destruct rest as [|q rest].
  - intros Hx. right. exists p. split; [by left|done].
  - intros [Hx|[->|Hx]%elem_of_cons]%elem_of_app.
    + right. exists p. split; [by left|done].
    + by left.
    + destruct (IH Hx) as [->|(p' & Hp' & Hx')]; [by left|].
      right. exists p'. split; [by right|done].
Qed.

(** The number of separators decides the number of fields. *)
Lemma length_split_on sep s :
  length (split_on sep s) = S (length (List.filter (N.eqb sep) s)).
Proof.
  induction s as [|c rest IH]; simpl; [done|].
  rewrite (N.eqb_sym sep c).
  destruct (c =? sep)%N; simpl; [by rewrite IH|].
  destruct (split_on sep rest) eqn:Hs; [by apply split_on_nonempty in Hs|].
  simpl in *. done.
Qed.

(** ** Trimming *)

Lemma trimStart_suffix s : ∃ spaces, s = (spaces ++ trimStart s)%list
                                ∧ Forall (λ c, is_space c = true) spaces.
Proof.
  induction s as [|c rest IH]; simpl; [by exists []|].
  destruct (is_space c) eqn:Hc.
  - destruct IH as (spaces & Hrest & Hall). exists (c :: spaces).
    split; [simpl; by f_equal|]. by constructor.
  - by exists [].
Qed.

Lemma trimStart_id s : trimStart s = s ↔ ∀ c, head s = Some c → is_space c = false.
Proof.
  destruct s as [|c rest]; simpl; [done|].
  destruct (is_space c) eqn:Hc.
  - split.
    + intros Heq. destruct (trimStart_suffix rest) as (spaces & Hrest & _).
      apply (f_equal length) in Hrest, Heq.
      rewrite length_app in Hrest. simpl in Heq. lia.
    + intros H. specialize (H c eq_refl). congruence.
  - split; [|done]. by intros _ c' [= <-].
Qed.

Lemma filter_trimStart c s :
  is_space c = false →
  List.filter (N.eqb c) (trimStart s) = List.filter (N.eqb c) s.
Proof.
  intros Hc. induction s as [|c' rest IH]; simpl; [done|].
  destruct (is_space c') eqn:Hc'; [|done]. rewrite IH.
  destruct (N.eqb_spec c c') as [->|_]; [congruence|done].
Qed.

Lemma length_filter_rev (f : N → bool) (s : JsString) :
  length (List.filter f (rev s)) = length (List.filter f s).
Proof.
  induction s as [|c rest IH]; simpl; [done|].
  rewrite List.filter_app, length_app, IH. simpl.
  destruct (f c); simpl; lia.
Qed.

Lemma length_filter_trim c s :
  is_space c = false →
  length (List.filter (N.eqb c) (trim s)) = length (List.filter (N.eqb c) s).
Proof.
  intros Hc. unfold trim.
  by rewrite length_filter_rev, (filter_trimStart _ _ Hc), length_filter_rev,
    (filter_trimStart _ _ Hc).
Qed.

Lemma trim_id s : trim s = s ↔ trimStart s = s ∧ trimStart (rev s) = rev s.
Proof.
  unfold trim. split.
  - intros Heq.
    destruct (trimStart_suffix s) as (sp1 & H1 & _).
    destruct (trimStart_suffix (rev (trimStart s))) as (sp2 & H2 & _).
    assert (length s = length (trimStart (rev (trimStart s)))) as Hlen.
    { rewrite <- Heq at 1. by rewrite length_rev. }
    assert (length sp1 = 0%nat ∧ length sp2 = 0%nat) as [Hsp1 Hsp2].
    { apply (f_equal length) in H1, H2.
      rewrite length_app in H1, H2. rewrite length_rev in H2. lia. }
    destruct sp1; [|done]. destruct sp2; [|done]. simpl in *.
    rewrite <- H1 in *. split; [done|]. by rewrite <- H2.
  - intros [-> ->]. apply rev_involutive.
Qed.

(** ** A line of the exported file *)

Lemma is_space_COMMA : is_space COMMA = false.
Proof. reflexivity. Qed.

Lemma find_pointwise {A} (f g : A → bool) (l : list A) :
  (∀ x, f x = g x) → List.find f l = List.find g l.
Proof.
  intros Hfg. induction l as [|x l IH]; simpl; [done|]. by rewrite Hfg, IH.
Qed.

Lemma head_app_comma (a b : JsString) c :
  head (a ++ COMMA :: b) = Some c → head a = Some c ∨ (a = [] ∧ c = COMMA).
Proof. destruct a; simpl; [intros [= <-]; by right|by left]. Qed.

Lemma head_rev_app_comma (a b : JsString) c :
  head (rev (a ++ COMMA :: b)) = Some c →
  head (rev b) = Some c ∨ (b = [] ∧ c = COMMA).
Proof.
  rewrite rev_app_distr. simpl. rewrite <- app_assoc. simpl.
  intros [Hc|[Hb ->]]%head_app_comma; [by left|right].
  split; [|done]. apply (f_equal (@rev N)) in Hb. by rewrite rev_involutive in Hb.
Qed.

Lemma item_line_eq item :
  join [COMMA] (item_fields item)
  = Item.sku item ++ COMMA :: Item.name item ++ COMMA :: Item.barcode item
    ++ COMMA :: Company.code (Item.company item).
Proof. reflexivity. Qed.

Lemma item_line_trim item :
  (∀ f, f ∈ item_fields item → trim f = f) →
  trim (join [COMMA] (item_fields item)) = join [COMMA] (item_fields item).
Proof.
  intros Hf. rewrite item_line_eq.
  assert (trim (Item.sku item) = Item.sku item) as [Hsku _]%trim_id.
  { apply Hf. unfold item_fields. rewrite !elem_of_cons. tauto. }
  assert (trim (Company.code (Item.company item)) = Company.code (Item.company item))
    as [_ Hcode]%trim_id.
  { apply Hf. unfold item_fields. rewrite !elem_of_cons. tauto. }
  apply trim_id. split; apply trimStart_id; intros c Hc.
  - apply head_app_comma in Hc as [Hc|[_ ->]]; [|done].
    by apply (proj1 (trimStart_id _) Hsku).
  - apply head_rev_app_comma in Hc as [Hc|[Hb _]];
      [|by destruct (Item.name item)].
    apply head_rev_app_comma in Hc as [Hc|[Hb _]];
      [|by destruct (Item.barcode item)].
    apply head_rev_app_comma in Hc as [Hc|[_ ->]]; [|done].
    by apply (proj1 (trimStart_id _) Hcode).
Qed.

Lemma item_line_commas item :
  comma_free item = false →
  (4 ≤ length (List.filter (N.eqb COMMA) (join [COMMA] (item_fields item))))%nat.
Proof.
  rewrite item_line_eq. unfold comma_free, item_fields.
  rewrite !List.filter_app. simpl. rewrite !List.filter_app. simpl.
  rewrite !List.filter_app. simpl. rewrite !length_app. simpl.
  rewrite !length_app. simpl. rewrite !length_app. simpl.
  assert (∀ f : JsString, bool_decide (COMMA ∉ f) = false →
            (1 ≤ length (List.filter (N.eqb COMMA) f))%nat) as Hone.
  { intros f Hf. apply bool_decide_eq_false in Hf.
    destruct (List.filter (N.eqb COMMA) f) as [|x l] eqn:Hfilter; [|simpl; lia].
    exfalso. apply Hf. intros Hin%list_elem_of_In.
    assert (In COMMA (List.filter (N.eqb COMMA) f)) as Habs.
    { apply filter_In. split; [done|]. apply N.eqb_refl. }
    by rewrite Hfilter in Habs. }
  rewrite !andb_false_iff.
  intros [H|[H|[H|[H|H]]]]; [apply Hone in H..|done]; lia.
Qed.

Lemma import_row_item_fields companies item :
  (∀ f, f ∈ item_fields item → trim f = f) →
  import_row companies (item_fields item) = item_step companies item.
Proof.
  intros Hf. unfold import_row, item_step.
  assert (trim <$> item_fields item = item_fields item) as ->.
  { unfold item_fields in *. simpl.
    rewrite !Hf by (rewrite !elem_of_cons; tauto). done. }
  simpl.
  rewrite (find_pointwise _
             (λ c, bool_decide (Company.code c = Company.code (Item.company item)))).
  - done.
  - intros c. apply bool_decide_ext. split; [by intros [= ->]|by intros ->].
Qed.

Lemma List_filter_cons {A} (p : A → bool) x l :
  List.filter p (x :: l) = if p x then x :: List.filter p l else List.filter p l.
Proof. reflexivity. Qed.

Lemma import_rows_of_items companies items :
  (∀ item, item ∈ items → comma_free item = true →
           ∀ f, f ∈ item_fields item → trim f = f) →
  import_row companies <$>
    List.filter (λ row, bool_decide (length row = 4%nat))
      ((λ row, split_on COMMA (trim row)) <$> (join [COMMA] <$> (item_fields <$> items)))
  = item_step companies <$> List.filter comma_free items.
Proof.
  induction items as [|item items IH]; [done|]. intros Hclean.
  rewrite !fmap_cons, !List_filter_cons.
  assert (∀ item', item' ∈ items → comma_free item' = true →
            ∀ f, f ∈ item_fields item' → trim f = f) as Hrest.
  { intros item' Hin. apply Hclean. by right. }
  destruct (comma_free item) eqn:Hcf.
  - assert (∀ f, f ∈ item_fields item → trim f = f) as Hf.
    { apply Hclean; [by left|done]. }
    rewrite item_line_trim by done.
    rewrite split_on_join; [|done|].
    + rewrite bool_decide_eq_true_2 by done.
      rewrite !fmap_cons, IH by done.
      by rewrite import_row_item_fields.
    + intros p Hp. unfold comma_free in Hcf.
      rewrite forallb_forall in Hcf.
      apply list_elem_of_In, Hcf in Hp. by apply bool_decide_eq_true in Hp.
  - rewrite bool_decide_eq_false_2; [by apply IH|].
    rewrite length_split_on, (length_filter_trim _ _ is_space_COMMA).
    pose proof (item_line_commas item Hcf). lia.
Qed.

(** ** Export, then import *)

(** X17.  Exporting the SKU table and importing the file again: when no
    field holds a line feed, every item without a comma in its fields, and
    with no white space around them, is taken up with exactly its four fields
    and looked up by its company code; every item with a comma in some field
    is dropped without a trace, neither sent to the server nor counted as
    failed, because its line splits into more than four fields. *)
Theorem export_then_import (items : list Item.t) (companies : list Company.t) :
  (∀ item, item ∈ items → ∀ f, f ∈ item_fields item → LF ∉ f) →
  (∀ item, item ∈ items → comma_free item = true →
           ∀ f, f ∈ item_fields item → trim f = f) →
  handleFileUpload (handleDownload items) companies
  = import_steps (item_step companies <$> List.filter comma_free items).
Proof.
  intros Hlf Hclean. unfold handleFileUpload, handleDownload.
  rewrite split_on_join; [|done|].
  - rewrite !fmap_cons.
    change ((?x :: ?l) !! 0%nat) with (Some x).
    change (drop 1 (?x :: ?l)) with l.
    change (default [] (Some ?x)) with x.
    assert (split_on COMMA (trim (join [COMMA] expectedHeaders)) = expectedHeaders)
      as -> by (vm_compute; reflexivity).
    assert (trim <$> expectedHeaders = expectedHeaders) as ->
      by (vm_compute; reflexivity).
    assert (headers_match expectedHeaders = true) as -> by (vm_compute; reflexivity).
    simpl negb. cbv iota. f_equal.
    by apply import_rows_of_items.
  - intros line [->|Hin]%elem_of_cons.
    + vm_compute. intros Hin. repeat (apply elem_of_cons in Hin as [Hin|Hin];
        [discriminate|]). by apply elem_of_nil in Hin.
    + apply list_elem_of_fmap in Hin as (fields & -> & Hin).
      apply list_elem_of_fmap in Hin as (item & -> & Hin).
      intros [Heq|(f & Hf & Hx)]%elem_of_join; [done|].
      by apply (Hlf item Hin f Hf).
Qed.

Lemma export_then_import_witness :
  let acme := Company.mk (js "c1") (js "ACME") in
  let bolt := Item.mk (js "i1") (js "A-1") (js "Bolt") (js "123") acme in
  let nut := Item.mk (js "i2") (js "A-2") (js "Nut, small") (js "456") acme in
  comma_free bolt = true ∧ comma_free nut = false
  ∧ handleFileUpload (handleDownload [bolt; nut]) [acme]
    = import_steps [post_item (Some (js "A-1")) (Some (js "Bolt"))
                      (Some (js "123")) (js "c1")].
Proof.
  intros acme bolt nut. split; [reflexivity|]. split; [reflexivity|].
  apply (export_then_import [bolt; nut] [acme]).
  - intros item Hitem f Hf.
    repeat (apply elem_of_cons in Hitem as [->|Hitem]);
      [..|by apply elem_of_nil in Hitem];
      (repeat (apply elem_of_cons in Hf as [->|Hf]);
       [..|by apply elem_of_nil in Hf]);
      (vm_compute; intros Hin;
       repeat (apply elem_of_cons in Hin as [Hin|Hin]; [discriminate|]);
       by apply elem_of_nil in Hin).
  - intros item Hitem Hcf f Hf.
    repeat (apply elem_of_cons in Hitem as [->|Hitem]);
      [..|by apply elem_of_nil in Hitem]; [|discriminate Hcf].
    repeat (apply elem_of_cons in Hf as [->|Hf]);
      [..|by apply elem_of_nil in Hf]; vm_compute; reflexivity.
Defined.

(** ** The header check *)

Lemma headers_match_true headers :
  headers_match headers = true ↔
  ∃ n, (n ≤ 4)%nat ∧ headers = take n expectedHeaders.
Proof.
  unfold headers_match. split.
  - destruct headers as [|h0 [|h1 [|h2 [|h3 [|h4 rest]]]]]; simpl;
      rewrite ?andb_true_iff, ?bool_decide_eq_true; intros H.
    + exists 0%nat. split; [lia|done].
    + exists 1%nat. split; [lia|]. destruct H as [[= <-] _]. done.
    + exists 2%nat. split; [lia|]. destruct H as ([= <-] & [= <-] & _). done.
    + exists 3%nat. split; [lia|].
      destruct H as ([= <-] & [= <-] & [= <-] & _). done.
    + exists 4%nat. split; [lia|].
      destruct H as ([= <-] & [= <-] & [= <-] & [= <-] & _). done.
    + by destruct H as (_ & _ & _ & _ & H).
  - intros (n & Hn & ->).
    destruct n as [|[|[|[|[|n]]]]]; [vm_compute; reflexivity..|lia].
Qed.

(** X18.  The import goes on past the header check exactly when the trimmed
    fields of the file's first line are the first one, two, three or four of
    SKU, Name, Barcode, Company: a header line cut short is accepted, one with
    a fifth field is not. *)
Theorem import_accepts_header_prefixes (csvText : JsString)
    (companies : list Company.t) :
  (∃ steps, handleFileUpload csvText companies = import_steps steps) ↔
  ∃ n, (1 ≤ n ≤ 4)%nat ∧ csv_headers csvText = take n expectedHeaders.
Proof.
  unfold handleFileUpload.
  assert (trim <$> default [] (((λ row, split_on COMMA (trim row))
                                  <$> split_on LF csvText) !! 0%nat)
          = csv_headers csvText) as ->.
  { unfold csv_headers. rewrite list_lookup_fmap.
    destruct (split_on LF csvText) as [|l0 lines] eqn:Hs;
      [by apply split_on_nonempty in Hs|done]. }
  assert (csv_headers csvText ≠ []) as Hne.
  { unfold csv_headers. intros Hnil%fmap_nil_inv. by apply split_on_nonempty in Hnil. }
  destruct (headers_match (csv_headers csvText)) eqn:Hm; simpl.
  - apply headers_match_true in Hm as (n & Hn & Heq). split; [|eauto].
    intros _. exists n. split; [|done].
    destruct n; [by rewrite Heq in Hne|lia].
  - split; [by intros [? ?]|]. intros (n & Hn & Heq).
    assert (headers_match (csv_headers csvText) = true) as Habs; [|congruence].
    apply headers_match_true. exists n. split; [lia|done].
Qed.

Example handleFileUpload_short_header :
  handleFileUpload (js "SKU" ++ [LF] ++ js "A-1") []
  = import_steps [company_not_found (Some (js "A-1")) None].
Proof. vm_compute. reflexivity. Qed.

(** * Undo calls one after another, and overlapping *)

Lemma validate_ext db db' req :
  transactions db' !! transactionId req = transactions db !! transactionId req →
  (∀ t, transactions db !! transactionId req = Some t →
        (has_newer_completed db' t ↔ has_newer_completed db t)
        ∧ ∀ loc, stock db' !! (itemId t, loc) = stock db !! (itemId t, loc)) →
  validate db' req = validate db req.
Proof.
  intros Hl Hsame. unfold validate, transaction_findUnique, stock_findUnique.
  rewrite Hl. destruct (transactions db !! transactionId req) as [t|]; [|done].
  destruct (Hsame t eq_refl) as [Hnew Hstock].
  case_bool_decide; [done|].
  destruct (transaction_findFirst db' _) as [r'|] eqn:Hf',
           (transaction_findFirst db _) as [r|] eqn:Hf.
  - done.
  - apply findFirst_more_recent_None in Hf. destruct Hf. apply Hnew.
    apply findFirst_more_recent. by rewrite Hf'.
  - apply findFirst_more_recent_None in Hf'. destruct Hf'. apply Hnew.
    apply findFirst_more_recent. by rewrite Hf.
  - destruct (type t); [|done|];
      (destruct (toLocationId t) as [loc|]; [|done]); by rewrite Hstock.
Qed.

Lemma POST_completed_rows db req now :
  (∀ k t', transactions (POST db req now).1 !! k = Some t' →
           status t' = COMPLETED → transactions db !! k = Some t')
  ∧ (∀ t', has_newer_completed (POST db req now).1 t' → has_newer_completed db t').
Proof.
  assert (∀ k t', transactions (POST db req now).1 !! k = Some t' →
                  status t' = COMPLETED → transactions db !! k = Some t') as Hrows.
  { intros k t' Hk Hst.
    destruct (POST db req now) as [db' resp] eqn:HP. simpl in Hk.
    destruct resp as [r|e c]; [|by apply POST_error in HP as ->].
    apply POST_ok in HP as (t & dbs & _ & _ & -> & ->). simpl in Hk.
    apply lookup_insert_Some in Hk as [[_ <-]|[_ Hk]]; done. }
  split; [done|].
  intros t' (k & r & Hk & Hi & Hs & Hlt). exists k, r. split_and!; try done.
  by apply Hrows.
Qed.

(** X19.  An undo call never makes a row COMPLETED: every row that is
    COMPLETED after the call was there, identical, before it.  So a row that
    had no newer COMPLETED row of its item before the call has none after it:
    undoing one transaction never locks another. *)
Theorem undo_never_locks (db : Db) (req : UndoRequest) (now : Z) :
  (∀ k t', transactions (POST db req now).1 !! k = Some t' →
           status t' = COMPLETED → transactions db !! k = Some t')
  ∧ (∀ t', has_newer_completed (POST db req now).1 t' → has_newer_completed db t').
Proof. apply POST_completed_rows. Qed.

Lemma POST_other_item db reqA nowA reqB :
  (∀ tA tB, transactions db !! transactionId reqA = Some tA →
            transactions db !! transactionId reqB = Some tB →
            itemId tA ≠ itemId tB) →
  validate (POST db reqA nowA).1 reqB = validate db reqB.
Proof.
  intros Hitems.
  destruct (POST db reqA nowA) as [db1 respA] eqn:HP. simpl.
  destruct respA as [rA|e c]; [|by apply POST_error in HP as ->].
  apply POST_ok in HP as (tA & dbs & Hv & Hc & -> & ->).
  apply validate_CanUndo in Hv as (HlA & _).
  destruct (compensate_stock_frame _ _ _ Hc) as [Hframe _].
  assert (∀ tB, transactions db !! transactionId reqB = Some tB →
                transactionId reqA ≠ transactionId reqB) as Hids.
  { intros tB HlB Heq. pose proof HlA as HlA'. rewrite Heq in HlA'.
    rewrite HlB in HlA'. injection HlA' as ->. by apply (Hitems tA tA). }
  apply validate_ext; simpl.
  - destruct (transactions db !! transactionId reqB) as [tB|] eqn:HlB.
    + rewrite lookup_insert_ne by (by eapply Hids). done.
    + rewrite lookup_insert_ne; [done|]. intros Heq. rewrite Heq in HlA. congruence.
  - intros tB HlB. specialize (Hitems _ _ HlA HlB). split.
    + split.
      * intros (k & r & Hk & Hi & Hs & Hlt). simpl in Hk.
        apply lookup_insert_Some in Hk as [[_ <-]|[_ Hk]]; [done|].
        by exists k, r.
      * intros (k & r & Hk & Hi & Hs & Hlt). exists k, r. simpl.
        split_and!; try done. rewrite lookup_insert_ne; [done|].
        intros <-. rewrite HlA in Hk. injection Hk as <-. congruence.
    + intros loc.
      destruct (decide (stock dbs !! (itemId tB, loc) = stock db !! (itemId tB, loc)))
        as [|Hne]; [done|].
      apply Hframe in Hne as [Heq _]. congruence.
Qed.

(** X20.  Two undo requests for rows of different items may overlap: when
    both finish their reads before either writes, the responses and the final
    tables are those of running the first and then the second. *)
Theorem overlapping_undos_of_different_items (db : Db) (reqA reqB : UndoRequest)
    (nowA nowB : Z) :
  (∀ tA tB, transactions db !! transactionId reqA = Some tA →
            transactions db !! transactionId reqB = Some tB →
            itemId tA ≠ itemId tB) →
  POST_overlapping db reqA reqB nowA nowB = POST_serial db reqA reqB nowA nowB.
Proof.
  intros Hitems. unfold POST_overlapping, POST_serial.
  pose proof (POST_other_item db reqA nowA reqB Hitems) as Hv.
  change (after_validation db (validate db reqA) reqA nowA) with (POST db reqA nowA).
  destruct (POST db reqA nowA) as [db1 respA]. simpl in Hv.
  unfold POST. by rewrite Hv.
Qed.

Lemma overlapping_undos_of_different_items_witness :
  let reqA := mkUndoRequest "T1" "u1" in
  let reqB := mkUndoRequest "U1" "u2" in
  transactions db_two_items !! "T1" = Some putaway_row
  ∧ transactions db_two_items !! "U1" = Some other_item_row
  ∧ POST_overlapping db_two_items reqA reqB 7 8
    = POST_serial db_two_items reqA reqB 7 8.
Proof.
  intros reqA reqB. split; [reflexivity|]. split; [reflexivity|].
  apply (overlapping_undos_of_different_items db_two_items reqA reqB 7 8).
  intros tA tB HA HB.
  change (transactions db_two_items !! transactionId reqA) with (Some putaway_row) in HA.
  change (transactions db_two_items !! transactionId reqB) with (Some other_item_row) in HB.
  injection HA as <-. injection HB as <-. discriminate.
Defined.

Lemma undo_never_locks_witness :
  let db' := (POST db_three_removes (mkUndoRequest "T2" "u1") 10).1 in
  transactions db' !! "T3" = Some (remove_row "T3" 2)
  ∧ transactions db_three_removes !! "T3" = Some (remove_row "T3" 2).
Proof.
  intros db'. split; [vm_compute; reflexivity|].
  apply (proj1 (undo_never_locks db_three_removes (mkUndoRequest "T2" "u1") 10)
           "T3" (remove_row "T3" 2)).
  - vm_compute. reflexivity.
  - reflexivity.
Defined.

Lemma undo_error_conditions_witness :
  (POST db_putaway (mkUndoRequest "nope" "u1") 7).2 = NotFound
  ∧ transactions db_putaway !! "nope" = None.
Proof.
  split; [|reflexivity].
  apply (proj1 (undo_error_conditions db_putaway (mkUndoRequest "nope" "u1") 7)).
  reflexivity.
Defined.



Lemma history_fails_iff_witness :
  (query_param "type" [("type", "BOGUS")] = Some "BOGUS"
   ∧ GET (λ _, None) db_three_removes [("type", "BOGUS")]
     = history_error "Failed to fetch transaction history" 500)
  ∧ (let Date_parse := λ _ : string, Some 253402300800000 in
     let searchParams := [("startDate", "+010000-01-01")] in
     accepted_date (Date_parse "+010000-01-01") = None
     ∧ GET Date_parse db_three_removes searchParams
       = history_error "Failed to fetch transaction history" 500).
Proof.
  split.
  - split; [reflexivity|].
    apply (proj1 (history_fails_iff (λ _, None) db_three_removes [("type", "BOGUS")])).
    do 2 right; left. exists "BOGUS". split; [reflexivity|].
    rewrite !not_elem_of_cons. split_and!; [discriminate..|apply not_elem_of_nil].
  - intros Date_parse searchParams. split; [reflexivity|].
    apply (proj1 (history_fails_iff Date_parse db_three_removes searchParams)).
    left. exists "+010000-01-01". split; reflexivity.
Defined.

Lemma stockByLocation_throws_iff_witness :
  let row := mkStockRow "X" "l9" 1 "TEST001" "TEST" "constructor" in
  stockByLocation [row] = None.
Proof.
  intros row. apply (proj2 (stockByLocation_throws_iff [row])).
  exists row. split; [apply list_elem_of_here|].
  unfold Object_prototype_names. simpl. apply list_elem_of_here.
Defined.

Lemma import_accepts_header_prefixes_witness :
  csv_headers (js "SKU" ++ [LF] ++ js "A-1") = take 1 expectedHeaders
  ∧ ∃ steps, handleFileUpload (js "SKU" ++ [LF] ++ js "A-1") [] = import_steps steps.
Proof.
  split; [vm_compute; reflexivity|].
  apply (proj2 (import_accepts_header_prefixes (js "SKU" ++ [LF] ++ js "A-1") [])).
  exists 1%nat. split; [lia|]. vm_compute. reflexivity.
Defined.
